(** * vssue, Gitea API v1 adapter: a shallow embedding and its properties

    The development follows the three TypeScript sources:
    - the PKCE helper [generateCodeVerifier];
    - [utils.ts]: [normalizeUser], [normalizeIssue], [normalizeComment];
    - [index.ts]: the class [GiteaV1].

    Values typed [any] in the sources are JavaScript values ([JsVal]);
    [async] methods are computations over the adapter instance and the
    browser and network around it ([M]); a rejected promise is a thrown
    completion. *)

From Stdlib Require Import ZArith List String Ascii Bool Lia DecimalString.
Import ListNotations.
Local Open Scope string_scope.
Local Open Scope Z_scope.

Set Warnings "-register-all".

(** ** JavaScript values *)

(** What [JSON.parse] and the sources' object literals produce, plus
    [undefined].  Numbers are the integer-valued ones (ids, counts, status
    codes, timestamps), of the size a forge hands out: below 10^21, from
    where on JavaScript prints a number with an exponent.  An object is its list of own properties, in
    insertion order. *)
Inductive JsVal : Type :=
| JUndefined
| JNull
| JBool (b : bool)
| JNum (n : Z)
| JStr (s : string)
| JArr (elements : list JsVal)
| JObj (properties : list (string * JsVal)).

(** Thrown values.  [AxiosError] is what the HTTP transport rejects with: it
    carries the response when the server answered with an error status. *)
Record Response : Type := { status : Z; data : JsVal }.

Inductive JsError : Type :=
| TypeError
| AxiosError (response : option Response)
| Error (message : string).

Inductive Completion (A : Type) : Type :=
| Return (a : A)
| Throw (e : JsError).
Arguments Return {A} a.
Arguments Throw {A} e.

Definition cbind {A B} (c : Completion A) (f : A -> Completion B) : Completion B :=
  match c with
  | Return a => f a
  | Throw e => Throw e
  end.

Notation "'let!' x ':=' c 'in' k" := (cbind c (fun x => k))
  (at level 10, x name, c at level 100, k at level 200).

(** ** The PKCE code verifier (generateCodeVerifier) *)

Module PKCE.

(** The part of [window] the function uses: [crypto.getRandomValues].  The
    k-th draw of the generator is [random k]; a [Uint8Array] stores each
    element modulo 256. *)
Record Window : Type := { random : nat -> Z }.

Definition getRandomValues (w : Window) (len : nat) : list Z :=
  map (fun k => random w k mod 256) (seq 0 len).

Definition validChars : string :=
  "ABCDEFGHIJKLMNOPQRSTUVWXYZabcdefghijklmnopqrstuvwxyz0123456789-._~".

(** [validChars[i]]: the character, or [undefined] out of range; appended to
    a string, [undefined] reads "undefined". *)
Definition charAt (s : string) (i : Z) : option ascii :=
  if i <? 0 then None else String.get (Z.to_nat i) s.

Definition append_index (codeVerifier : string) (c : option ascii) : string :=
  match c with
  | Some a => codeVerifier ++ String a EmptyString
  | None => codeVerifier ++ "undefined"
  end.

Definition clamp (length : Z) : Z :=
  let len := length in
  let len := if len <? 43 then 43 else len in
  let len := if len >? 128 then 128 else len in
  len.

(** [window] is [None] when [typeof window === 'undefined']; [length] is
    [None] when the argument is omitted (default 43), and otherwise an
    integer number of characters: what the function does with NaN or a
    fractional length is outside this model.  The result is [None] for
    [null]. *)
Definition generateCodeVerifier (window : option Window) (length : option Z)
  : option string :=
  match window with
  | None => None
  | Some w =>
      let len := clamp (match length with Some n => n | None => 43 end) in
      let randomArr := getRandomValues w (Z.to_nat len) in
      Some (fold_left
              (fun codeVerifier i => append_index codeVerifier (charAt validChars (i mod len)))
              randomArr EmptyString)
  end.

(** The indices the loop uses, in order. *)
Definition indices (w : Window) (length : option Z) : list Z :=
  let len := clamp (match length with Some n => n | None => 43 end) in
  map (fun i => i mod len) (getRandomValues w (Z.to_nat len)).

Definition in_alphabet (a : ascii) : bool :=
  let n := N_of_ascii a in
  (((65 <=? n) && (n <=? 90)) || ((97 <=? n) && (n <=? 122))
   || ((48 <=? n) && (n <=? 57))
   || (n =? 45) || (n =? 46) || (n =? 95) || (n =? 126))%N.

Definition all_in_alphabet (s : string) : bool :=
  forallb in_alphabet (list_ascii_of_string s).

End PKCE.

(** What the loop of [generateCodeVerifier] works with: [len], the number of
    random bytes asked for, and how many of the indices [i % len] fall
    outside the 66 characters of [validChars]. *)
Module PKCEShape.
Import PKCE.

Definition len (length : option Z) : Z :=
  clamp (match length with Some n => n | None => 43 end).

Definition overflows (w : Window) (length : option Z) : nat :=
  List.length (filter (fun i => 66 <=? i) (indices w length)).

End PKCEShape.

(** ** Operations on JavaScript values *)

Fixpoint lookup (name : string) (properties : list (string * JsVal)) : JsVal :=
  match properties with
  | [] => JUndefined
  | (k, v) :: rest => if String.eqb k name then v else lookup name rest
  end.

(** [delete o.name] *)
Definition delete (name : string) (properties : list (string * JsVal))
  : list (string * JsVal) :=
  filter (fun kv => negb (String.eqb (fst kv) name)) properties.

(** [o.name = v] on an ordinary object: an own property keeps its place, a
    new one goes last. *)
Fixpoint assign (name : string) (v : JsVal) (properties : list (string * JsVal))
  : list (string * JsVal) :=
  match properties with
  | [] => [(name, v)]
  | (k, w) :: rest =>
      if String.eqb k name then (k, v) :: rest else (k, w) :: assign name v rest
  end.

Definition nullish (v : JsVal) : bool :=
  match v with
  | JUndefined | JNull => true
  | _ => false
  end.

(** The value of [v.name] when the read does not throw.  The names the
    sources read (login, body, size, ...) are own properties of objects
    only: on a string, a number, a boolean or an array they are absent. *)
Definition prop (v : JsVal) (name : string) : JsVal :=
  match v with
  | JObj properties => lookup name properties
  | _ => JUndefined
  end.

(** [v.name]: reading a property of [undefined] or [null] throws. *)
Definition get (v : JsVal) (name : string) : Completion JsVal :=
  if nullish v then Throw TypeError else Return (prop v name).

Definition first_char (s : string) : JsVal :=
  match s with
  | EmptyString => JUndefined
  | String a _ => JStr (String a EmptyString)
  end.

(** [v[0]] *)
Definition get_first (v : JsVal) : Completion JsVal :=
  match v with
  | JUndefined | JNull => Throw TypeError
  | JArr elements => Return (nth 0 elements JUndefined)
  | JStr s => Return (first_char s)
  | JObj properties => Return (lookup "0" properties)
  | _ => Return JUndefined
  end.

(** [v.name = x] in strict-mode code, as a module's code is: an object takes
    the property; an array takes it too, where nothing here reads it back;
    a primitive refuses. *)
Definition set (v : JsVal) (name : string) (x : JsVal) : Completion JsVal :=
  match v with
  | JObj properties => Return (JObj (assign name x properties))
  | JArr elements => Return (JArr elements)
  | _ => Throw TypeError
  end.

(** [if (v)] *)
Definition truthy (v : JsVal) : bool :=
  match v with
  | JUndefined | JNull => false
  | JBool b => b
  | JNum n => negb (n =? 0)
  | JStr s => negb (String.eqb s EmptyString)
  | JArr _ | JObj _ => true
  end.

(** [typeof v === 'string'] *)
Definition is_string (v : JsVal) : bool :=
  match v with
  | JStr _ => true
  | _ => false
  end.

(** Whether [v.name = x] is accepted: objects and arrays take properties,
    primitives do not (see [set]). *)
Definition takes_property (v : JsVal) : bool :=
  match v with
  | JObj _ | JArr _ => true
  | _ => false
  end.

(** [v === s] for a string [s] *)
Definition strict_eq_string (v : JsVal) (s : string) : bool :=
  match v with
  | JStr s' => String.eqb s' s
  | _ => false
  end.

Definition string_of_Z (n : Z) : string :=
  NilZero.string_of_int (Z.to_int n).

(** [`${v}`]: an array joins its elements with commas, [null] and
    [undefined] elements being empty. *)
Fixpoint ToString (v : JsVal) : string :=
  match v with
  | JUndefined => "undefined"
  | JNull => "null"
  | JBool true => "true"
  | JBool false => "false"
  | JNum n => string_of_Z n
  | JStr s => s
  | JArr elements =>
      String.concat ","
        (map (fun e => if nullish e then EmptyString else ToString e) elements)
  | JObj _ => "[object Object]"
  end.

(** Iterating with [for ... of]: arrays and strings are iterable. *)
Definition iterate (v : JsVal) : Completion (list JsVal) :=
  match v with
  | JArr elements => Return elements
  | JStr s => Return (map (fun a => JStr (String a EmptyString)) (list_ascii_of_string s))
  | _ => Throw TypeError
  end.

(** ** The shapes of the VssueAPI contract *)

Module VssueAPI.

Module User.
Record t : Type := { username : JsVal; avatar : JsVal; homepage : string }.
End User.

Module Issue.
Record t : Type := { id : JsVal; title : JsVal; content : JsVal; link : string }.
End Issue.

Module Comment.
Record t : Type := {
  id : JsVal;
  content : JsVal;
  contentRaw : JsVal;
  author : User.t;
  createdAt : JsVal;
  updatedAt : JsVal;
  reactions : JsVal }.
End Comment.

Module Comments.
Record t : Type := { count : Z; page : Z; perPage : Z; data : list Comment.t }.
End Comments.

Module Query.
Record t : Type := { page : option Z; perPage : option Z; sort : option string }.
End Query.

Module Platform.
Record Meta : Type := { reactable : bool; sortable : bool }.
Record t : Type := { name : string; link : string; version : string; meta : Meta }.
End Platform.

End VssueAPI.
Import VssueAPI.

(** ** The helpers of [@vssue/utils]

    They live outside the sources at hand and are parameters.  [concatURL]
    is given its path as a JavaScript value: a string wherever the adapter
    builds the path itself, and see [concatURL_any] for a path read from raw
    JSON. *)
Class Utils : Type := {
  concatURL : string -> JsVal -> string;
  buildURL : string -> list (string * JsVal) -> string;
  buildQuery : list (string * JsVal) -> string;
  getCleanURL : string -> string;
  parseQuery : string -> list (string * JsVal) }.

(** ** utils.ts *)

Section Normalize.
Context {U : Utils}.

(** Modelled from the spec: the URL helpers are external collaborators and
    [concatURL] of @vssue/utils is not among the sources.  It is declared on
    strings, [(baseURL: string, path: string): string], and joins the two with
    the methods of strings; a path read from raw JSON that is not a string
    has none of them, and the call throws a [TypeError]. *)
Definition concatURL_any (baseURL : string) (path : JsVal) : Completion string :=
  if is_string path then Return (concatURL baseURL path) else Throw TypeError.

Definition normalizeUser (user : JsVal) (baseURL : string) : Completion User.t :=
  let! username := get user "login" in
  let! avatar := get user "avatar_url" in
  let! login := get user "login" in
  let! homepage := concatURL_any baseURL login in
  Return {| User.username := username;
            User.avatar := avatar;
            User.homepage := homepage |}.

Definition normalizeIssue (issue : JsVal) (baseURL owner repo : string)
  : Completion Issue.t :=
  let! id := get issue "number" in
  let! title := get issue "title" in
  let! content := get issue "body" in
  let! number := get issue "number" in
  Return {| Issue.id := id;
            Issue.title := title;
            Issue.content := content;
            Issue.link :=
              concatURL baseURL
                (JStr (owner ++ "/" ++ repo ++ "/issues/" ++ ToString number)) |}.

Definition normalizeComment (comment : JsVal) (baseURL : string)
  : Completion Comment.t :=
  let! id := get comment "id" in
  let! content := get comment "body" in
  let! contentRaw := get comment "body" in
  let! user := get comment "user" in
  let! author := normalizeUser user baseURL in
  let! createdAt := get comment "created_at" in
  let! updatedAt := get comment "updated_at" in
  let! reactions := get comment "reactions" in
  Return {| Comment.id := id;
            Comment.content := content;
            Comment.contentRaw := contentRaw;
            Comment.author := author;
            Comment.createdAt := createdAt;
            Comment.updatedAt := updatedAt;
            Comment.reactions := reactions |}.

End Normalize.

(** ** index.ts: the adapter and what surrounds it *)

Inductive Method : Type := GET | POST | PATCH | DELETE.

Record AxiosRequestConfig : Type := {
  headers : option (list (string * string));
  params : option (list (string * JsVal)) }.

(** One call of [$http.get], [.post], [.patch] or [.delete]; [body] is
    [JUndefined] for the methods without one. *)
Record Request : Type := {
  method : Method;
  url : string;
  body : JsVal;
  config : AxiosRequestConfig }.

(** What [axios.create] was given. *)
Record AxiosInstance : Type := {
  axios_baseURL : string;
  axios_headers : list (string * string) }.

Inductive Proxy : Type :=
| ProxyString (s : string)
| ProxyFunction (f : string -> string).

Record GiteaV1 : Type := {
  baseURL : string;
  owner : string;
  repo : string;
  labels : list string;
  clientId : string;
  clientSecret : string;
  state : string;
  proxy : Proxy;
  http : AxiosInstance }.

(** The options the constructor reads; an option left out is [None]. *)
Record Options : Type := {
  options_baseURL : option string;
  options_owner : string;
  options_repo : string;
  options_labels : list string;
  options_clientId : string;
  options_clientSecret : option string;
  options_state : string;
  options_proxy : option Proxy }.

(** [window.location] *)
Record Location : Type := { href : string; search : string; hash : string }.

(** The browser and the network.  [Env] is everything behind the transport
    and the clock: [send] performs one exchange as the given axios instance,
    [Date_now] reads the clock.  [replaceState url] is what
    [history.replaceState(null, '', url)] does to [window.location], and
    [assign_href url] what [window.location.href = url] does.
    [string_gt_zero s] is [s > 0], which converts the string to a number. *)
Class Host : Type := {
  Env : Type;
  send : AxiosInstance -> Request -> Env -> Completion Response * Env;
  Date_now : Env -> Z;
  replaceState : string -> Location -> Location;
  assign_href : string -> Location -> Location;
  string_gt_zero : string -> bool }.

Section Adapter.
Context {U : Utils} {H : Host}.

(** [v > 0]: [undefined] and objects convert to NaN, [null] to 0, an array
    to the number its string form reads as. *)
Definition gt_zero (v : JsVal) : bool :=
  match v with
  | JUndefined => false
  | JNull => false
  | JBool b => b
  | JNum n => 0 <? n
  | JStr s => string_gt_zero s
  | JArr _ => string_gt_zero (ToString v)
  | JObj _ => false
  end.

(** The exchanges made so far are kept in [log], oldest first. *)
Record World : Type := {
  location : Location;
  env : Env;
  log : list (Request * Completion Response) }.

(** A method runs on the instance and the world and leaves both. *)
Record St : Type := { this : GiteaV1; world : World }.

Definition M (A : Type) : Type := St -> Completion A * St.

Definition ret {A} (a : A) : M A := fun st => (Return a, st).

Definition throw {A} (e : JsError) : M A := fun st => (Throw e, st).

Definition bind {A B} (m : M A) (f : A -> M B) : M B :=
  fun st =>
    match m st with
    | (Return a, st') => f a st'
    | (Throw e, st') => (Throw e, st')
    end.

Definition lift {A} (c : Completion A) : M A := fun st => (c, st).

Definition try_catch {A} (m : M A) (handler : JsError -> M A) : M A :=
  fun st =>
    match m st with
    | (Return a, st') => (Return a, st')
    | (Throw e, st') => handler e st'
    end.

Notation "x <- m ;; k" := (bind m (fun x => k))
  (at level 61, m at next level, right associativity).
Notation "m ;; k" := (bind m (fun _ => k))
  (at level 61, right associativity).

Definition get_this : M GiteaV1 := fun st => (Return (this st), st).

Definition get_location : M Location :=
  fun st => (Return (location (world st)), st).

Definition set_location (f : Location -> Location) : M unit :=
  fun st =>
    (Return tt,
     {| this := this st;
        world := {| location := f (location (world st));
                    env := env (world st);
                    log := log (world st) |} |}).

Definition now : M Z := fun st => (Return (Date_now (env (world st))), st).

(** [await this.$http.<method>(...)] *)
Definition request (r : Request) : M Response :=
  fun st =>
    let '(answer, env') := send (http (this st)) r (env (world st)) in
    (answer,
     {| this := this st;
        world := {| location := location (world st);
                    env := env';
                    log := log (world st) ++ [(r, answer)] |} |}).

(** [Promise.all] over tasks started in list order.  No task waits for
    another: each one runs to its end whatever becomes of the others.  The
    exchanges are taken in the order the requests were sent, and of several
    failures the first in that order is the rejection reported (in a browser,
    the first to settle). *)
Fixpoint all {A} (tasks : list (M A)) : M (list A) :=
  match tasks with
  | [] => ret []
  | task :: rest =>
      fun st =>
        let '(r, st1) := task st in
        let '(rs, st2) := all rest st1 in
        (match r, rs with
         | Return a, Return l => Return (a :: l)
         | Throw e, _ => Throw e
         | Return _, Throw e => Throw e
         end, st2)
  end.

(** [array.map(f)] with an [f] that may throw *)
Fixpoint map_throwing {A B} (f : A -> Completion B) (l : list A)
  : Completion (list B) :=
  match l with
  | [] => Return []
  | a :: rest =>
      let! b := f a in
      let! bs := map_throwing f rest in
      Return (b :: bs)
  end.

Definition constructor (options : Options) : Completion GiteaV1 :=
  let baseURL :=
    match options_baseURL options with
    | Some url => url
    | None => "https://try.gitea.io"
    end in
  match options_clientSecret options, options_proxy options with
  | Some clientSecret, Some proxy =>
      Return {| baseURL := baseURL;
                owner := options_owner options;
                repo := options_repo options;
                labels := options_labels options;
                clientId := options_clientId options;
                clientSecret := clientSecret;
                state := options_state options;
                proxy := proxy;
                http := {| axios_baseURL := concatURL baseURL (JStr "api/v1");
                           axios_headers := [("Accept", "application/json")] |} |}
  | _, _ => Throw (Error "clientSecret and proxy is required for Gitea V1")
  end.

Definition bearer (accessToken : JsVal) : list (string * string) :=
  [("Authorization", "bearer " ++ ToString accessToken)].

(** [get platform] *)
Definition platform : M Platform.t :=
  this <- get_this ;;
  ret {| Platform.name := "Gitea";
         Platform.link := baseURL this;
         Platform.version := EmptyString;
         Platform.meta := {| Platform.reactable := false;
                             Platform.sortable := false |} |}.

Definition redirectAuth : M unit :=
  this <- get_this ;;
  location <- get_location ;;
  set_location
    (assign_href
       (buildURL (concatURL (baseURL this) (JStr "login/oauth/authorize"))
          [("client_id", JStr (clientId this));
           ("redirect_uri", JStr (href location));
           ("response_type", JStr "code");
           ("state", JStr (state this))])).

Definition getAccessToken (code : JsVal) : M JsVal :=
  this <- get_this ;;
  let originalURL := concatURL (baseURL this) (JStr "login/oauth/access_token") in
  let proxyURL :=
    match proxy this with
    | ProxyFunction f => f originalURL
    | ProxyString s => s
    end in
  location <- get_location ;;
  response <- request
    {| method := POST;
       url := proxyURL;
       body := JStr (buildQuery
                       [("client_id", JStr (clientId this));
                        ("client_secret", JStr (clientSecret this));
                        ("code", code);
                        ("grant_type", JStr "authorization_code");
                        ("redirect_uri", JStr (href location))]);
       config := {| headers := Some [("Content-Type", "application/x-www-form-urlencoded")];
                    params := None |} |} ;;
  lift (get (data response) "access_token").

Definition handleAuth : M JsVal :=
  this <- get_this ;;
  location <- get_location ;;
  let query := parseQuery (search location) in
  if truthy (lookup "code" query) then
    if negb (strict_eq_string (lookup "state" query) (state this)) then
      ret JNull
    else
      let code := lookup "code" query in
      let query := delete "state" (delete "code" query) in
      let replaceURL := buildURL (getCleanURL (href location)) query ++ hash location in
      set_location (replaceState replaceURL) ;;
      accessToken <- getAccessToken code ;;
      ret accessToken
  else
    ret JNull.

Definition apiURL (this : GiteaV1) (url : string) : string :=
  match proxy this with
  | ProxyFunction f => f (concatURL (baseURL this) (JStr ("api/v1/" ++ url)))
  | ProxyString _ => url
  end.

Definition getUser (accessToken : JsVal) : M User.t :=
  this <- get_this ;;
  response <- request
    {| method := GET;
       url := apiURL this "user";
       body := JUndefined;
       config := {| headers := Some (bearer accessToken); params := None |} |} ;;
  lift (normalizeUser (data response) (baseURL this)).

Definition authorization (accessToken : JsVal) : option (list (string * string)) :=
  if truthy accessToken then Some (bearer accessToken) else None.

(** What the [catch] of [getIssue] tests: [e.response] *)
Definition response_of (e : JsError) : option Response :=
  match e with
  | AxiosError response => response
  | _ => None
  end.

Definition getIssue (accessToken issueId issueTitle : JsVal)
  : M (option Issue.t) :=
  this <- get_this ;;
  let options_headers := authorization accessToken in
  if truthy issueId then
    try_catch
      (timestamp <- now ;;
       response <- request
         {| method := GET;
            url := apiURL this
                     ("repos/" ++ owner this ++ "/" ++ repo this ++ "/issues/"
                      ++ ToString issueId);
            body := JUndefined;
            config := {| headers := options_headers;
                         params := Some [("timestamp", JNum timestamp)] |} |} ;;
       issue <- lift (normalizeIssue (data response) (baseURL this) (owner this) (repo this)) ;;
       ret (Some issue))
      (fun e =>
         match response_of e with
         | Some response =>
             if status response =? 404 then ret None else throw e
         | None => throw e
         end)
  else
    timestamp <- now ;;
    response <- request
      {| method := GET;
         url := apiURL this ("repos/" ++ owner this ++ "/" ++ repo this ++ "/issues");
         body := JUndefined;
         config := {| headers := options_headers;
                      params := Some [("labels", JStr (String.concat "," (labels this)));
                                      ("q", issueTitle);
                                      ("timestamp", JNum timestamp)] |} |} ;;
    size <- lift (get (data response) "size") ;;
    if gt_zero size then
      values <- lift (get (data response) "values") ;;
      first <- lift (get_first values) ;;
      issue <- lift (normalizeIssue first (baseURL this) (owner this) (repo this)) ;;
      ret (Some issue)
    else
      ret None.

Definition postIssue (accessToken : JsVal) (title content : string)
  : M Issue.t :=
  this <- get_this ;;
  response <- request
    {| method := POST;
       url := apiURL this ("repos/" ++ owner this ++ "/" ++ repo this ++ "/issues");
       body := JObj [("body",
                      JObj [("title", JStr title);
                            ("body", JStr content);
                            ("labels", JArr (map JStr (labels this)))])];
       config := {| headers := Some (bearer accessToken); params := None |} |} ;;
  lift (normalizeIssue (data response) (baseURL this) (owner this) (repo this)).

Definition getMarkdownContent (accessToken contentRaw : JsVal) : M JsVal :=
  this <- get_this ;;
  response <- request
    {| method := POST;
       url := apiURL this "markdown";
       body := JObj [("Context", JStr (owner this ++ "/" ++ repo this));
                     ("Mode", JStr "gfm");
                     ("Text", contentRaw);
                     ("Wiki", JBool false)];
       config := {| headers := authorization accessToken; params := None |} |} ;;
  ret (data response).

(** The body of the loop of [getComments]: the task pushed for one raw
    comment.  It leaves the comment with its [body_html] set. *)
Definition getCommentMeta (accessToken comment : JsVal) : M JsVal :=
  contentRaw <- lift (get comment "body") ;;
  body_html <- getMarkdownContent accessToken contentRaw ;;
  lift (set comment "body_html" body_html).

Definition getComments (accessToken issueId : JsVal) (query : option Query.t)
  : M Comments.t :=
  let query :=
    match query with
    | Some q => q
    | None => {| Query.page := None; Query.perPage := None; Query.sort := None |}
    end in
  let page := match Query.page query with Some p => p | None => 1 end in
  let perPage := match Query.perPage query with Some p => p | None => 10 end in
  let sort := match Query.sort query with Some s => s | None => "desc" end in
  this <- get_this ;;
  timestamp <- now ;;
  response <- request
    {| method := GET;
       url := apiURL this
                ("repos/" ++ owner this ++ "/" ++ repo this ++ "/issues/"
                 ++ ToString issueId ++ "/comments");
       body := JUndefined;
       config := {| headers := authorization accessToken;
                    params := Some [("timestamp", JNum timestamp)] |} |} ;;
  let commentsRaw := data response in
  comments <- lift (iterate commentsRaw) ;;
  comments <- all (map (getCommentMeta accessToken) comments) ;;
  match commentsRaw with
  | JArr _ =>
      data <- lift (map_throwing (fun item => normalizeComment item (baseURL this)) comments) ;;
      ret {| Comments.count := 0;
             Comments.page := 0;
             Comments.perPage := 0;
             Comments.data := data |}
  | _ => throw TypeError
  end.

Definition postComment (accessToken issueId : JsVal) (content : string)
  : M Comment.t :=
  this <- get_this ;;
  response <- request
    {| method := POST;
       url := apiURL this
                ("repos/" ++ owner this ++ "/" ++ repo this ++ "/issues/"
                 ++ ToString issueId ++ "/comments");
       body := JObj [("body", JStr content)];
       config := {| headers := Some (bearer accessToken); params := None |} |} ;;
  contentRaw <- lift (get (data response) "body") ;;
  body_html <- getMarkdownContent accessToken contentRaw ;;
  data <- lift (set (data response) "body_html" body_html) ;;
  lift (normalizeComment data (baseURL this)).

Definition putComment (accessToken issueId commentId : JsVal) (content : string)
  : M Comment.t :=
  this <- get_this ;;
  response <- request
    {| method := PATCH;
       url := apiURL this
                ("repos/" ++ owner this ++ "/" ++ repo this ++ "/issues/"
                 ++ ToString issueId ++ "/comments/" ++ ToString commentId);
       body := JObj [("body", JStr content)];
       config := {| headers := Some (bearer accessToken); params := None |} |} ;;
  lift (normalizeComment (data response) (baseURL this)).

Definition deleteComment (accessToken issueId commentId : JsVal) : M bool :=
  this <- get_this ;;
  response <- request
    {| method := DELETE;
       url := apiURL this
                ("repos/" ++ owner this ++ "/" ++ repo this ++ "/issues/"
                 ++ ToString issueId ++ "/comments/" ++ ToString commentId);
       body := JUndefined;
       config := {| headers := Some (bearer accessToken); params := None |} |} ;;
  ret (status response =? 204).

Definition getCommentReactions (accessToken issueId commentId : JsVal)
  : M JsVal :=
  throw (Error "501 Not Implemented").

Definition postCommentReaction (accessToken issueId commentId : JsVal)
  (reaction : string) : M bool :=
  throw (Error "501 Not Implemented").

(** *** The operations as one family *)

Inductive Call : Type :=
| Call_platform
| Call_handleAuth
| Call_getAccessToken (code : JsVal)
| Call_getUser (accessToken : JsVal)
| Call_getIssue (accessToken issueId issueTitle : JsVal)
| Call_postIssue (accessToken : JsVal) (title content : string)
| Call_getComments (accessToken issueId : JsVal) (query : option Query.t)
| Call_postComment (accessToken issueId : JsVal) (content : string)
| Call_putComment (accessToken issueId commentId : JsVal) (content : string)
| Call_deleteComment (accessToken issueId commentId : JsVal)
| Call_getMarkdownContent (accessToken contentRaw : JsVal).

Inductive Value : Type :=
| VPlatform (p : Platform.t)
| VToken (accessToken : JsVal)
| VUser (user : User.t)
| VIssue (issue : option Issue.t)
| VComments (comments : Comments.t)
| VComment (comment : Comment.t)
| VBoolean (b : bool)
| VHtml (html : JsVal).

Definition fmap {A B} (f : A -> B) (m : M A) : M B :=
  a <- m ;; ret (f a).

Definition invoke (c : Call) : M Value :=
  match c with
  | Call_platform => fmap VPlatform platform
  | Call_handleAuth => fmap VToken handleAuth
  | Call_getAccessToken code => fmap VToken (getAccessToken code)
  | Call_getUser accessToken => fmap VUser (getUser accessToken)
  | Call_getIssue accessToken issueId issueTitle =>
      fmap VIssue (getIssue accessToken issueId issueTitle)
  | Call_postIssue accessToken title content =>
      fmap VIssue (fmap Some (postIssue accessToken title content))
  | Call_getComments accessToken issueId query =>
      fmap VComments (getComments accessToken issueId query)
  | Call_postComment accessToken issueId content =>
      fmap VComment (postComment accessToken issueId content)
  | Call_putComment accessToken issueId commentId content =>
      fmap VComment (putComment accessToken issueId commentId content)
  | Call_deleteComment accessToken issueId commentId =>
      fmap VBoolean (deleteComment accessToken issueId commentId)
  | Call_getMarkdownContent accessToken contentRaw =>
      fmap VHtml (getMarkdownContent accessToken contentRaw)
  end.

(** The errors the transport raised between two states of the world. *)
Definition raised (exchanges : list (Request * Completion Response))
  : list JsError :=
  flat_map (fun x => match snd x with Throw e => [e] | Return _ => [] end)
    exchanges.

(** [getIssue] looks an issue up by its id when [if (issueId)] passes. *)
Definition by_id (c : Call) : bool :=
  match c with
  | Call_getIssue _ issueId _ => truthy issueId
  | _ => false
  end.

(** [m] leaves the instance as it found it. *)
Definition preserves_this {A} (m : M A) : Prop :=
  forall st, this (snd (m st)) = this st.

Definition throws_TypeError_only {A} (c : Completion A) : Prop :=
  forall e, c = Throw e -> e = TypeError.

(** *** Vocabulary for what an operation sends *)

(** What the transport answers to [r] in state [st], and the state after
    that exchange. *)
Definition answer (st : St) (r : Request) : Completion Response :=
  fst (send (http (this st)) r (env (world st))).

Definition exchanged (st : St) (r : Request) : St :=
  {| this := this st;
     world := {| location := location (world st);
                 env := snd (send (http (this st)) r (env (world st)));
                 log := log (world st) ++ [(r, answer st r)] |} |}.

(** The exchanges logged between [st] and a later [st']. *)
Definition new_exchanges (st st' : St) : list (Request * Completion Response) :=
  skipn (List.length (log (world st))) (log (world st')).

(** Every request [m] sends satisfies [P]. *)
Definition sends_only (P : Request -> Prop) {A} (m : M A) : Prop :=
  forall st, exists new,
    log (world (snd (m st))) = (log (world st) ++ new)%list /\
    Forall (fun x => P (fst x)) new.

(** [m] leaves [window.location] alone. *)
Definition preserves_location {A} (m : M A) : Prop :=
  forall st, location (world (snd (m st))) = location (world st).

(** The HTTP methods each operation may use. *)
Definition may_use (c : Call) (m : Method) : bool :=
  match c, m with
  | Call_handleAuth, POST | Call_getAccessToken _, POST => true
  | Call_getUser _, GET | Call_getIssue _ _ _, GET => true
  | Call_postIssue _ _ _, POST => true
  | Call_getComments _ _ _, GET | Call_getComments _ _ _, POST => true
  | Call_postComment _ _ _, POST => true
  | Call_putComment _ _ _ _, PATCH => true
  | Call_deleteComment _ _ _, DELETE => true
  | Call_getMarkdownContent _ _, POST => true
  | _, _ => false
  end.


(** The operations that make one exchange whatever happens. *)
Definition one_exchange (c : Call) : bool :=
  match c with
  | Call_getAccessToken _ | Call_getUser _ | Call_getIssue _ _ _
  | Call_postIssue _ _ _ | Call_putComment _ _ _ _
  | Call_deleteComment _ _ _ | Call_getMarkdownContent _ _ => true
  | _ => false
  end.

(** [m] makes one exchange, whatever comes of it, and rethrows the error
    of the transport if there is one. *)
Definition exchanges_once {A} (m : M A) : Prop :=
  forall st, exists r,
    snd (m st) = exchanged st r /\
    (forall e, answer st r = Throw e -> fst (m st) = Throw e).

(** [m] only adds exchanges to the log, stops at the first error the
    transport raises and rejects with that very error. *)
Definition rethrows {A} (m : M A) : Prop :=
  forall st, exists new,
    log (world (snd (m st))) = (log (world st) ++ new)%list /\
    (raised new = [] \/ exists e, raised new = [e] /\ fst (m st) = Throw e).

(** [m] only computes: the state is left as it is. *)
Definition quiet {A} (m : M A) : Prop := forall st, snd (m st) = st.

(** The request that asks the forge to render [contentRaw]. *)
Definition render_request (this : GiteaV1) (accessToken contentRaw : JsVal)
  : Request :=
  {| method := POST;
     url := apiURL this "markdown";
     body := JObj [("Context", JStr (owner this ++ "/" ++ repo this));
                   ("Mode", JStr "gfm");
                   ("Text", contentRaw);
                   ("Wiki", JBool false)];
     config := {| headers := authorization accessToken; params := None |} |}.

(** [Text] of a request to the markdown renderer. *)
Definition text_of (r : Request) : JsVal := prop (body r) "Text".

End Adapter.

(** ** A concrete browser, server and set of helpers

    Used to run the operations on explicit inputs. *)

Module Demo.

Definition encode (query : list (string * JsVal)) : string :=
  String.concat "&" (map (fun kv => fst kv ++ "=" ++ ToString (snd kv)) query).

Definition utils : Utils := {|
  concatURL := fun baseURL path => baseURL ++ "/" ++ ToString path;
  buildURL := fun url query =>
    match query with
    | [] => url
    | _ => url ++ "?" ++ encode query
    end;
  buildQuery := encode;
  getCleanURL := fun _ => "https://blog.example/post";
  parseQuery := fun search =>
    if String.eqb search "?code=c0de&state=s3cret" then
      [("code", JStr "c0de"); ("state", JStr "s3cret")]
    else if String.eqb search "?code=c0de&state=other" then
      [("code", JStr "c0de"); ("state", JStr "other")]
    else [] |}.

Definition alice : JsVal :=
  JObj [("login", JStr "alice"); ("avatar_url", JStr "https://try.gitea.io/avatars/1")].

Definition comment1 : JsVal :=
  JObj [("id", JNum 11);
        ("body", JStr "**hi**");
        ("user", alice);
        ("created_at", JStr "2019-05-01T10:00:00Z");
        ("updated_at", JStr "2019-05-01T10:00:00Z")].

Definition issue7 : JsVal :=
  JObj [("number", JNum 7); ("title", JStr "Post"); ("body", JStr "text")].

Definition rendered : JsVal := JStr "<p><strong>hi</strong></p>".

(** The server: issue 7 with one comment, no issue 8, a markdown renderer
    and a token endpoint; everything else is unreachable. *)
Definition serve (r : Request) : Completion Response :=
  match method r with
  | GET =>
      if String.eqb (url r) "repos/o/r/issues/7/comments" then
        Return {| status := 200; data := JArr [comment1] |}
      else if String.eqb (url r) "repos/o/r/issues/7" then
        Return {| status := 200; data := issue7 |}
      else if String.eqb (url r) "repos/o/r/issues/8" then
        Throw (AxiosError (Some {| status := 404; data := JNull |}))
      else if String.eqb (url r) "repos/o/r/issues" then
        Return {| status := 200; data := JArr [issue7] |}
      else Throw (AxiosError None)
  | POST =>
      if String.eqb (url r) "markdown" then
        Return {| status := 200; data := rendered |}
      else if String.eqb (url r) "https://proxy.example/token" then
        Return {| status := 200; data := JObj [("access_token", JStr "t0ken")] |}
      else Throw (AxiosError None)
  | _ => Throw (AxiosError None)
  end.

(** The environment counts the exchanges and is its own clock. *)
Definition host : Host := {|
  Env := Z;
  send := fun _ r e => (serve r, e + 1);
  Date_now := fun e => 1556700000000 + e;
  replaceState := fun url l => {| href := url; search := EmptyString; hash := hash l |};
  assign_href := fun url l => {| href := url; search := EmptyString; hash := EmptyString |};
  string_gt_zero := fun _ => false |}.

Definition gitea : GiteaV1 := {|
  baseURL := "https://try.gitea.io";
  owner := "o";
  repo := "r";
  labels := ["Vssue"];
  clientId := "id";
  clientSecret := "secret";
  state := "s3cret";
  proxy := ProxyString "https://proxy.example/token";
  http := {| axios_baseURL := "https://try.gitea.io/api/v1";
             axios_headers := [("Accept", "application/json")] |} |}.

#[local] Existing Instance utils.
#[local] Existing Instance host.

Definition page_at (search : string) : St := {|
  this := gitea;
  world := {| location := {| href := "https://blog.example/post" ++ search ++ "#top";
                             search := search;
                             hash := "#top" |};
              env := 0;
              log := [] |} |}.

Definition start : St := page_at EmptyString.

End Demo.

(** A forge whose issue search answers with a page that announces one
    result and lists none. *)
Module Paged.

Definition page : JsVal := JObj [("size", JNum 1); ("values", JArr [])].

Definition host : Host := {|
  Env := Z;
  send := fun _ r e => (Return {| status := 200; data := page |}, e + 1);
  Date_now := fun e => 1556700000000 + e;
  replaceState := fun url l => {| href := url; search := EmptyString; hash := hash l |};
  assign_href := fun url l => {| href := url; search := EmptyString; hash := EmptyString |};
  string_gt_zero := fun _ => false |}.

#[local] Existing Instance Demo.utils.
#[local] Existing Instance host.

Definition start : St := {|
  this := Demo.gitea;
  world := {| location := {| href := "https://blog.example/post";
                             search := EmptyString;
                             hash := EmptyString |};
              env := 0;
              log := [] |} |}.

End Paged.

(** A forge that answers every request with status 200 and the same
    body. *)
Module Canned.

Definition host (body : JsVal) : Host := {|
  Env := Z;
  send := fun _ r e => (Return {| status := 200; data := body |}, e + 1);
  Date_now := fun e => 1556700000000 + e;
  replaceState := fun url l => {| href := url; search := EmptyString; hash := hash l |};
  assign_href := fun url l => {| href := url; search := EmptyString; hash := EmptyString |};
  string_gt_zero := fun _ => false |}.

Definition start (body : JsVal) : St (H := host body) :=
  Build_St (H := host body) Demo.gitea
    (Build_World (H := host body)
       {| href := "https://blog.example/post";
          search := EmptyString;
          hash := EmptyString |}
       0%Z []).

(** A search result with one issue. *)
Definition found : JsVal :=
  JObj [("size", JNum 1); ("values", JArr [Demo.issue7])].

End Canned.

(** * Properties *)

(** ** generateCodeVerifier *)

Module PKCEFacts.
Import PKCE.

Lemma generateCodeVerifier_without_window (length : option Z) :
  generateCodeVerifier None length = None.
Proof. reflexivity. Qed.

Lemma clamp_range (n : Z) : 43 <= clamp n <= 128.
Proof.
  unfold clamp.
  destruct (n <? 43) eqn:Hlo.
  - cbn. lia.
  - apply Z.ltb_ge in Hlo. destruct (n >? 128) eqn:Hhi.
    + lia.
    + pose proof (Zgt_cases n 128) as Hc. rewrite Hhi in Hc. lia.
Qed.

Lemma clamp_min_max (n : Z) : clamp n = Z.min (Z.max n 43) 128.
Proof.
  unfold clamp.
  destruct (n <? 43) eqn:Hlo.
  - apply Z.ltb_lt in Hlo. cbn. lia.
  - apply Z.ltb_ge in Hlo. destruct (n >? 128) eqn:Hhi;
      pose proof (Zgt_cases n 128) as Hc; rewrite Hhi in Hc; lia.
Qed.

Lemma list_ascii_of_string_app (s t : string) :
  list_ascii_of_string (s ++ t) = (list_ascii_of_string s ++ list_ascii_of_string t)%list.
Proof. induction s as [|a s IH]; cbn; [reflexivity | now rewrite IH]. Qed.

Lemma all_in_alphabet_app (s t : string) :
  all_in_alphabet (s ++ t) = all_in_alphabet s && all_in_alphabet t.
Proof.
  unfold all_in_alphabet. now rewrite list_ascii_of_string_app, forallb_app.
Qed.

Lemma string_length_app (s t : string) :
  String.length (s ++ t) = (String.length s + String.length t)%nat.
Proof. induction s as [|a s IH]; cbn; [reflexivity | now rewrite IH]. Qed.

(** Whatever the index, what the loop appends is made of alphabet
    characters: a character of [validChars], or the letters of
    "undefined". *)
Lemma appended_in_alphabet (s : string) (i : Z) :
  all_in_alphabet s = true ->
  all_in_alphabet (append_index s (charAt validChars i)) = true.
Proof.
  intros Hs. unfold charAt.
  destruct (i <? 0).
  - cbn [append_index]. now rewrite all_in_alphabet_app, Hs.
  - generalize (Z.to_nat i). intros k.
    do 67 (destruct k as [|k];
           [cbn [String.get validChars append_index];
            now rewrite all_in_alphabet_app, Hs|]).
    cbn [String.get validChars append_index].
    now rewrite all_in_alphabet_app, Hs.
Qed.

Lemma fold_in_alphabet (len : Z) (l : list Z) (s : string) :
  all_in_alphabet s = true ->
  all_in_alphabet
    (fold_left (fun codeVerifier i => append_index codeVerifier (charAt validChars (i mod len)))
       l s) = true.
Proof.
  revert s. induction l as [|i l IH]; intros s Hs; cbn; [exact Hs|].
  apply IH. now apply appended_in_alphabet.
Qed.

(** Every character of a generated verifier belongs to the alphabet. *)
Lemma generateCodeVerifier_alphabet (w : Window) (length : option Z) (s : string) :
  generateCodeVerifier (Some w) length = Some s -> all_in_alphabet s = true.
Proof.
  unfold generateCodeVerifier. intros [= <-]. now apply fold_in_alphabet.
Qed.

Lemma charAt_in_range (i : Z) :
  0 <= i < 66 -> exists a, charAt validChars i = Some a.
Proof.
  intros Hi. unfold charAt.
  destruct (i <? 0) eqn:Hneg; [apply Z.ltb_lt in Hneg; lia|].
  assert (Hk : (Z.to_nat i < 66)%nat) by lia.
  revert Hk. generalize (Z.to_nat i). intros k Hk.
  do 66 (destruct k as [|k]; [cbn; eexists; reflexivity|]).
  lia.
Qed.

Lemma fold_length (len : Z) (l : list Z) (s : string) :
  Forall (fun i => 0 <= i mod len < 66) l ->
  String.length
    (fold_left (fun codeVerifier i => append_index codeVerifier (charAt validChars (i mod len)))
       l s) = (String.length s + List.length l)%nat.
Proof.
  revert s. induction l as [|i l IH]; intros s Hl; cbn [fold_left List.length].
  - lia.
  - inversion Hl as [|? ? Hi Hl']; subst.
    rewrite (IH _ Hl').
    destruct (charAt_in_range _ Hi) as [a ->]. cbn [append_index].
    rewrite string_length_app. cbn. lia.
Qed.

Lemma getRandomValues_length (w : Window) (len : nat) :
  List.length (getRandomValues w len) = len.
Proof. unfold getRandomValues. now rewrite length_map, length_seq. Qed.

(** Up to 66 characters asked, every index falls inside [validChars] and
    the verifier has the clamped length. *)
Lemma generateCodeVerifier_length_upto_66 (w : Window) (n : Z) (s : string) :
  n <= 66 ->
  generateCodeVerifier (Some w) (Some n) = Some s ->
  Forall (fun i => 0 <= i < 66) (indices w (Some n)) /\
  Z.of_nat (String.length s) = Z.min (Z.max n 43) 128.
Proof.
  intros Hn. unfold generateCodeVerifier, indices. intros [= <-].
  pose proof (clamp_range n) as Hc.
  assert (Hle : clamp n <= 66) by (rewrite clamp_min_max; lia).
  assert (Hall : Forall (fun i => 0 <= i mod clamp n < 66)
                   (getRandomValues w (Z.to_nat (clamp n)))).
  { apply Forall_forall. intros i _.
    pose proof (Z.mod_pos_bound i (clamp n)). lia. }
  split.
  - apply Forall_map. exact Hall.
  - rewrite (fold_length (clamp n) _ EmptyString Hall), getRandomValues_length, <- clamp_min_max.
    cbn [String.length]. lia.
Qed.

(** C1, evaluated where it fails: asked for 67 characters, with the random
    bytes 0, 1, ..., 66, the loop reduces the last byte modulo [len] = 67 (not
    modulo the 66 characters of [validChars]), reads [validChars[66]], which
    is out of bounds, and appends "undefined" to the 66 characters drawn
    before. *)
Theorem generateCodeVerifier_index_out_of_bounds :
  let w := {| random := Z.of_nat |} in
  Z.of_nat (String.length validChars) = 66 /\
  nth 66 (indices w (Some 67)) 0 = 66 /\
  charAt validChars 66 = None /\
  generateCodeVerifier (Some w) (Some 67) = Some (validChars ++ "undefined").
Proof. cbv zeta. repeat split; vm_compute; reflexivity. Qed.

(** C4, evaluated where it fails: on the same input the verifier has 75
    characters, where min(max(67, 43), 128) is 67. *)
Theorem generateCodeVerifier_length_overshoot :
  let w := {| random := Z.of_nat |} in
  option_map String.length (generateCodeVerifier (Some w) (Some 67)) = Some 75%nat /\
  Z.min (Z.max 67 43) 128 = 67 /\
  generateCodeVerifier None (Some 67) = None.
Proof. cbv zeta. repeat split; vm_compute; reflexivity. Qed.

End PKCEFacts.

Module PKCEShapeFacts.
Import PKCE PKCEShape PKCEFacts.

Lemma get_beyond (s : string) (k : nat) :
  (String.length s <= k)%nat -> String.get k s = None.
Proof.
  revert k. induction s as [|a s IH]; intros k Hk; [now destruct k|].
  destruct k as [|k]; cbn in Hk |- *; [lia|]. apply IH. lia.
Qed.

Lemma charAt_out_of_range (i : Z) : 66 <= i -> charAt validChars i = None.
Proof.
  intros Hi. unfold charAt.
  destruct (i <? 0) eqn:Hneg; [reflexivity|].
  apply get_beyond. change (String.length validChars) with 66%nat. lia.
Qed.

Lemma filter_map_length {A B} (p : B -> bool) (f : A -> B) (l : list A) :
  List.length (filter p (map f l)) = List.length (filter (fun a => p (f a)) l).
Proof.
  induction l as [|a l IH]; cbn; [reflexivity|].
  destruct (p (f a)); cbn; now rewrite IH.
Qed.

Lemma filter_length_le {A} (p : A -> bool) (l : list A) :
  (List.length (filter p l) <= List.length l)%nat.
Proof.
  induction l as [|a l IH]; cbn; [lia|]. destruct (p a); cbn; lia.
Qed.

(** The loop adds one character for an index inside [validChars] and the
    nine of "undefined" for one outside. *)
Lemma fold_length_exact (n : Z) (l : list Z) (s : string) :
  0 < n ->
  String.length
    (fold_left (fun codeVerifier i => append_index codeVerifier (charAt validChars (i mod n)))
       l s)
  = (String.length s + List.length l
     + 8 * List.length (filter (fun i => (66 <=? i mod n)%Z) l))%nat.
Proof.
  intros Hn. revert s.
  induction l as [|i l IH]; intros s; cbn [fold_left List.length filter].
  - lia.
  - rewrite IH. pose proof (Z.mod_pos_bound i n Hn) as Hi.
    destruct (66 <=? i mod n) eqn:Hout.
    + apply Z.leb_le in Hout. rewrite (charAt_out_of_range _ Hout).
      cbn [append_index List.length]. rewrite string_length_app. cbn. lia.
    + apply Z.leb_gt in Hout.
      destruct (charAt_in_range (i mod n)) as [a ->]; [lia|].
      cbn [append_index]. rewrite string_length_app. cbn. lia.
Qed.

Lemma len_range (length : option Z) : 43 <= len length <= 128.
Proof. apply clamp_range. Qed.

Lemma verifier_length (w : Window) (length : option Z) :
  option_map String.length (generateCodeVerifier (Some w) length)
  = Some (Z.to_nat (len length) + 8 * overflows w length)%nat.
Proof.
  pose proof (len_range length) as Hlen.
  unfold generateCodeVerifier, overflows, indices. fold (len length).
  cbn [option_map]. rewrite fold_length_exact by lia.
  rewrite getRandomValues_length, filter_map_length. reflexivity.
Qed.

(** X1: in a browser, for every integer length (given, or omitted and then
    43) and every random source, the verifier has one character per random
    byte plus eight more for each byte whose index [i % len] falls outside
    [validChars]: its length is [len + 8 * overflows]. *)
Theorem generateCodeVerifier_length (w : Window) (length : option Z) :
  option_map String.length (generateCodeVerifier (Some w) length)
  = Some (Z.to_nat (len length) + 8 * overflows w length)%nat.
Proof. exact (verifier_length w length). Qed.

(** X2: in a browser, whatever the integer length asked and the random
    bytes, the verifier is never shorter than the 43 characters PKCE
    requires: it has at least [len] characters, and at most nine times as
    many. *)
Theorem generateCodeVerifier_length_bounds (w : Window) (length : option Z) :
  exists s,
    generateCodeVerifier (Some w) length = Some s /\
    43 <= len length <= Z.of_nat (String.length s) /\
    Z.of_nat (String.length s) <= 9 * len length /\
    Z.of_nat (String.length s) <= 1152.
Proof.
  pose proof (len_range length) as Hlen.
  pose proof (verifier_length w length) as Hs.
  destruct (generateCodeVerifier (Some w) length) as [s|] eqn:Hrun;
    [|discriminate].
  exists s. split; [reflexivity|].
  cbn [option_map] in Hs. injection Hs as Hs.
  assert (Hover : (overflows w length <= Z.to_nat (len length))%nat).
  { unfold overflows, indices. fold (len length).
    rewrite filter_map_length.
    etransitivity; [apply filter_length_le|].
    now rewrite getRandomValues_length. }
  lia.
Qed.

(** X3: when the length is an integer and at most 66 characters are asked
    for (the default 43 included), no index leaves [validChars] and the
    verifier has exactly the clamped length. *)
Theorem generateCodeVerifier_exact_upto_66 (w : Window) (length : option Z) :
  len length <= 66 ->
  overflows w length = 0%nat /\
  option_map String.length (generateCodeVerifier (Some w) length)
  = Some (Z.to_nat (len length)).
Proof.
  intros Hle. pose proof (len_range length) as Hlen.
  assert (Hnone : overflows w length = 0%nat).
  { unfold overflows, indices. fold (len length). rewrite filter_map_length.
    induction (getRandomValues w (Z.to_nat (len length))) as [|i l IH];
      [reflexivity|].
    cbn [filter]. pose proof (Z.mod_pos_bound i (len length)) as Hi.
    destruct (66 <=? i mod len length) eqn:Hout; [|exact IH].
    apply Z.leb_le in Hout. lia. }
  split; [exact Hnone|].
  rewrite verifier_length, Hnone. f_equal. lia.
Qed.

(** X4: every character of a verifier belongs to the unreserved alphabet
    A-Z, a-z, 0-9, '-', '.', '_', '~', whatever the length asked and the
    random bytes (an index outside [validChars] contributes the letters of
    "undefined"). *)
Theorem generateCodeVerifier_characters (w : Window) (length : option Z) :
  option_map all_in_alphabet (generateCodeVerifier (Some w) length) = Some true.
Proof.
  destruct (generateCodeVerifier (Some w) length) as [s|] eqn:Hrun.
  - cbn. f_equal. exact (generateCodeVerifier_alphabet w length s Hrun).
  - discriminate.
Qed.

(** X5: the length argument is clamped to 43..128: any length up to 43
    behaves as the default, any length from 128 on behaves as 128. *)
Theorem generateCodeVerifier_clamped (window : option Window) (n m : Z) :
  n <= 43 -> 128 <= m ->
  generateCodeVerifier window (Some n) = generateCodeVerifier window None /\
  generateCodeVerifier window (Some m) = generateCodeVerifier window (Some 128).
Proof.
  intros Hn Hm.
  assert (Hlo : clamp n = clamp 43).
  { rewrite !clamp_min_max. lia. }
  assert (Hhi : clamp m = clamp 128).
  { rewrite !clamp_min_max. lia. }
  unfold generateCodeVerifier. destruct window as [w|]; [|now split].
  now rewrite Hlo, Hhi.
Qed.

Lemma generateCodeVerifier_exact_upto_66_witness :
  len (Some 50) <= 66 /\
  option_map String.length
    (generateCodeVerifier (Some {| random := fun k => Z.of_nat k * 7 |}) (Some 50))
  = Some 50%nat.
Proof.
  split; [vm_compute; discriminate|].
  exact (proj2 (generateCodeVerifier_exact_upto_66
                  {| random := fun k => Z.of_nat k * 7 |} (Some 50)
                  ltac:(vm_compute; discriminate))).
Defined.

Lemma generateCodeVerifier_clamped_witness :
  0 <= 43 /\ 128 <= 1000 /\
  generateCodeVerifier (Some {| random := Z.of_nat |}) (Some 0)
  = generateCodeVerifier (Some {| random := Z.of_nat |}) None.
Proof.
  split; [lia|]. split; [lia|].
  exact (proj1 (generateCodeVerifier_clamped (Some {| random := Z.of_nat |}) 0 1000
                  ltac:(lia) ltac:(lia))).
Defined.

End PKCEShapeFacts.

(** ** utils.ts *)

Section NormalizeFacts.
Context {U : Utils}.

Lemma get_defined (v : JsVal) (name : string) :
  nullish v = false -> get v name = Return (prop v name).
Proof. unfold get. now intros ->. Qed.

Lemma get_nullish (v : JsVal) (name : string) :
  nullish v = true -> get v name = Throw TypeError.
Proof. unfold get. now intros ->. Qed.

Lemma concatURL_any_string (baseURL : string) (path : JsVal) :
  is_string path = true ->
  concatURL_any baseURL path = Return (concatURL baseURL path).
Proof. unfold concatURL_any. now intros ->. Qed.

Lemma concatURL_any_other (baseURL : string) (path : JsVal) :
  is_string path = false -> concatURL_any baseURL path = Throw TypeError.
Proof. unfold concatURL_any. now intros ->. Qed.

Lemma normalizeUser_run (user : JsVal) (baseURL : string) :
  normalizeUser user baseURL =
  if nullish user then Throw TypeError
  else if is_string (prop user "login") then
    Return {| User.username := prop user "login";
              User.avatar := prop user "avatar_url";
              User.homepage := concatURL baseURL (prop user "login") |}
  else Throw TypeError.
Proof.
  unfold normalizeUser, get, concatURL_any.
  destruct (nullish user); [reflexivity|]. cbn [cbind].
  destruct (is_string (prop user "login")); reflexivity.
Qed.

(** C6, as the code has it: the three functions depend on their arguments
    only and map the raw fields to the canonical shapes, on a raw value
    whose fields can be read (anything but [null] and [undefined]) and, for
    a user, whose login is a string, as [concatURL] needs.
    - [normalizeUser]: username = user.login, avatar = user.avatar_url,
      homepage = baseURL joined with user.login;
    - [normalizeIssue]: id = issue.number, title = issue.title, content =
      issue.body, link = baseURL joined with owner/repo/issues/number;
    - [normalizeComment]: id = comment.id, content = contentRaw =
      comment.body, author = normalizeUser(comment.user, baseURL) (and what
      that throws is thrown), createdAt = comment.created_at, updatedAt =
      comment.updated_at, reactions = comment.reactions. *)
Theorem normalize_shapes
  (user issue comment : JsVal) (baseURL owner repo : string) :
  nullish user = false ->
  is_string (prop user "login") = true ->
  nullish issue = false ->
  nullish comment = false ->
  normalizeUser user baseURL =
    Return {| User.username := prop user "login";
              User.avatar := prop user "avatar_url";
              User.homepage := concatURL baseURL (prop user "login") |}
  /\ normalizeIssue issue baseURL owner repo =
    Return {| Issue.id := prop issue "number";
              Issue.title := prop issue "title";
              Issue.content := prop issue "body";
              Issue.link :=
                concatURL baseURL
                  (JStr (owner ++ "/" ++ repo ++ "/issues/"
                         ++ ToString (prop issue "number"))) |}
  /\ normalizeComment comment baseURL =
    (let! author := normalizeUser (prop comment "user") baseURL in
     Return {| Comment.id := prop comment "id";
               Comment.content := prop comment "body";
               Comment.contentRaw := prop comment "body";
               Comment.author := author;
               Comment.createdAt := prop comment "created_at";
               Comment.updatedAt := prop comment "updated_at";
               Comment.reactions := prop comment "reactions" |}).
Proof.
  intros Huser Hlogin Hissue Hcomment.
  repeat split.
  - now rewrite normalizeUser_run, Huser, Hlogin.
  - unfold normalizeIssue. now rewrite !(get_defined issue _ Hissue).
  - unfold normalizeComment.
    rewrite !(get_defined comment _ Hcomment). cbn [cbind].
    destruct (normalizeUser (prop comment "user") baseURL); reflexivity.
Qed.

(** A normalized comment carries the raw markdown twice: its [content] is
    its [contentRaw]. *)
Lemma normalizeComment_content (comment : JsVal) (baseURL : string) (c : Comment.t) :
  normalizeComment comment baseURL = Return c ->
  Comment.content c = prop comment "body" /\
  Comment.contentRaw c = prop comment "body".
Proof.
  unfold normalizeComment, get.
  destruct (nullish comment); cbn [cbind]; [discriminate|].
  destruct (normalizeUser (prop comment "user") baseURL); cbn [cbind];
    [|discriminate].
  now intros [= <-].
Qed.

Lemma normalizeUser_throws (user : JsVal) (baseURL : string) :
  throws_TypeError_only (normalizeUser user baseURL).
Proof.
  unfold throws_TypeError_only. rewrite normalizeUser_run.
  destruct (nullish user); [congruence|].
  destruct (is_string (prop user "login")); congruence.
Qed.

Lemma normalizeIssue_throws (issue : JsVal) (baseURL owner repo : string) :
  throws_TypeError_only (normalizeIssue issue baseURL owner repo).
Proof.
  unfold throws_TypeError_only, normalizeIssue, get.
  destruct (nullish issue); cbn; congruence.
Qed.

Lemma normalizeComment_throws (comment : JsVal) (baseURL : string) :
  throws_TypeError_only (normalizeComment comment baseURL).
Proof.
  unfold throws_TypeError_only, normalizeComment, get.
  destruct (nullish comment); cbn [cbind]; [congruence|].
  pose proof (normalizeUser_throws (prop comment "user") baseURL) as Hn.
  destruct (normalizeUser (prop comment "user") baseURL); cbn [cbind].
  - congruence.
  - intros e' [= <-]. now apply Hn.
Qed.

End NormalizeFacts.

Section NormalizeEdges.
Context {U : Utils}.

Ltac decompose_cases :=
  repeat match goal with
    | H : exists _, _ |- _ => destruct H
    | H : _ /\ _ |- _ => destruct H
    | H : _ \/ _ |- _ => destruct H
    end.

(** X6: [normalizeIssue] returns exactly on a raw value other than [null]
    and [undefined]; [normalizeUser] returns exactly on such a value whose
    login is a string; in every other case they throw a [TypeError]. *)
Theorem normalize_defined (raw : JsVal) (baseURL owner repo : string) :
  ((exists user, normalizeUser raw baseURL = Return user)
   <-> nullish raw = false /\ is_string (prop raw "login") = true)
  /\ (normalizeUser raw baseURL = Throw TypeError
      <-> nullish raw = true \/ is_string (prop raw "login") = false)
  /\ ((exists issue, normalizeIssue raw baseURL owner repo = Return issue)
      <-> nullish raw = false)
  /\ (normalizeIssue raw baseURL owner repo = Throw TypeError <-> nullish raw = true).
Proof.
  rewrite normalizeUser_run. unfold normalizeIssue, get.
  destruct (nullish raw); cbn [cbind];
    [|destruct (is_string (prop raw "login"))];
    repeat split; intros; decompose_cases;
    try discriminate; try reflexivity; try (eexists; reflexivity);
    try (now left); try (now right).
Qed.

(** X7: [normalizeComment] returns exactly when neither the comment nor its
    [user] is [null] or [undefined] and the user's login is a string (a
    comment without a user is refused); otherwise it throws a
    [TypeError]. *)
Theorem normalizeComment_defined (comment : JsVal) (baseURL : string) :
  let user := prop comment "user" in
  ((exists c, normalizeComment comment baseURL = Return c)
   <-> nullish comment = false /\ nullish user = false /\
       is_string (prop user "login") = true)
  /\ (normalizeComment comment baseURL = Throw TypeError
      <-> nullish comment = true \/ nullish user = true \/
          is_string (prop user "login") = false).
Proof.
  intros user. unfold normalizeComment, get.
  destruct (nullish comment); cbn [cbind];
    [|fold user; rewrite normalizeUser_run;
      destruct (nullish user); cbn [cbind];
      [|destruct (is_string (prop user "login")); cbn [cbind]]];
    repeat split; intros; decompose_cases;
    try discriminate; try reflexivity; try (eexists; reflexivity);
    try (now left); try (right; now left); try (right; now right).
Qed.

(** X8: a field the raw issue lacks is read as [undefined], not refused: an
    issue object without a [number] gets an undefined id and a link ending
    in "/issues/undefined". *)
Theorem normalizeIssue_without_number
  (properties : list (string * JsVal)) (baseURL owner repo : string) :
  lookup "number" properties = JUndefined ->
  normalizeIssue (JObj properties) baseURL owner repo =
    Return {| Issue.id := JUndefined;
              Issue.title := lookup "title" properties;
              Issue.content := lookup "body" properties;
              Issue.link :=
                concatURL baseURL
                  (JStr (owner ++ "/" ++ repo ++ "/issues/undefined")) |}.
Proof.
  intros Hnumber. unfold normalizeIssue, get. cbn [nullish prop cbind].
  now rewrite Hnumber.
Qed.

End NormalizeEdges.

(** ** index.ts *)

Section AdapterFacts.
Context {U : Utils} {H : Host}.

(** *** The instance is never written *)

Lemma preserves_ret {A} (a : A) : preserves_this (ret a).
Proof. intros st. reflexivity. Qed.

Lemma preserves_throw {A} (e : JsError) : preserves_this (throw (A := A) e).
Proof. intros st. reflexivity. Qed.

Lemma preserves_lift {A} (c : Completion A) : preserves_this (lift c).
Proof. intros st. reflexivity. Qed.

Lemma preserves_get_this : preserves_this get_this.
Proof. intros st. reflexivity. Qed.

Lemma preserves_get_location : preserves_this get_location.
Proof. intros st. reflexivity. Qed.

Lemma preserves_set_location (f : Location -> Location) :
  preserves_this (set_location f).
Proof. intros st. reflexivity. Qed.

Lemma preserves_now : preserves_this now.
Proof. intros st. reflexivity. Qed.

Lemma preserves_request (r : Request) : preserves_this (request r).
Proof.
  intros st. unfold request.
  destruct (send (http (this st)) r (env (world st))). reflexivity.
Qed.

Lemma preserves_bind {A B} (m : M A) (f : A -> M B) :
  preserves_this m -> (forall a, preserves_this (f a)) ->
  preserves_this (bind m f).
Proof.
  intros Hm Hf st. unfold bind. specialize (Hm st).
  destruct (m st) as [[a|e] st1]; cbn in Hm |- *.
  - now rewrite Hf.
  - exact Hm.
Qed.

Lemma preserves_try_catch {A} (m : M A) (handler : JsError -> M A) :
  preserves_this m -> (forall e, preserves_this (handler e)) ->
  preserves_this (try_catch m handler).
Proof.
  intros Hm Hh st. unfold try_catch. specialize (Hm st).
  destruct (m st) as [[a|e] st1]; cbn in Hm |- *.
  - exact Hm.
  - now rewrite Hh.
Qed.

Lemma preserves_all {A B} (task : B -> M A) (l : list B) :
  (forall b, preserves_this (task b)) ->
  preserves_this (all (map task l)).
Proof.
  intros Htask. induction l as [|b l IH]; intros st; cbn [map all].
  - reflexivity.
  - specialize (Htask b st).
    destruct (task b st) as [r st1]. cbn in Htask.
    specialize (IH st1).
    destruct (all (map task l) st1) as [rs st2]. cbn in IH |- *.
    congruence.
Qed.

Lemma preserves_fmap {A B} (f : A -> B) (m : M A) :
  preserves_this m -> preserves_this (fmap f m).
Proof.
  intros Hm. apply preserves_bind; [exact Hm|]. intros a. apply preserves_ret.
Qed.

Ltac preserve :=
  repeat first
    [ apply preserves_ret | apply preserves_throw | apply preserves_lift
    | apply preserves_get_this | apply preserves_get_location
    | apply preserves_set_location | apply preserves_now
    | apply preserves_request
    | apply preserves_try_catch; [|intros ?]
    | apply preserves_bind; [|intros ?]
    | match goal with
      | |- preserves_this (if ?b then _ else _) => destruct b
      | |- preserves_this (match ?x with _ => _ end) => destruct x
      end ].

Lemma preserves_getMarkdownContent (accessToken contentRaw : JsVal) :
  preserves_this (getMarkdownContent accessToken contentRaw).
Proof. unfold getMarkdownContent. preserve. Qed.

Lemma preserves_getAccessToken (code : JsVal) :
  preserves_this (getAccessToken code).
Proof. unfold getAccessToken. preserve. Qed.

Lemma preserves_getCommentMeta (accessToken comment : JsVal) :
  preserves_this (getCommentMeta accessToken comment).
Proof.
  unfold getCommentMeta.
  apply preserves_bind; [apply preserves_lift|]. intros contentRaw.
  apply preserves_bind; [apply preserves_getMarkdownContent|]. intros html.
  apply preserves_lift.
Qed.

Lemma preserves_getComments (accessToken issueId : JsVal) (query : option Query.t) :
  preserves_this (getComments accessToken issueId query).
Proof.
  unfold getComments. cbv zeta.
  apply preserves_bind; [apply preserves_get_this|]. intros this0.
  apply preserves_bind; [apply preserves_now|]. intros timestamp.
  apply preserves_bind; [apply preserves_request|]. intros response.
  apply preserves_bind; [apply preserves_lift|]. intros comments.
  apply preserves_bind.
  - apply preserves_all. apply preserves_getCommentMeta.
  - intros enriched. preserve.
Qed.

(** C7: every operation of the adapter, whatever its arguments and whatever
    the browser and the server do, ends with the instance it started with:
    baseURL, owner, repo, labels, clientId, clientSecret, state, proxy and
    $http are the fields of [this st]. *)
Theorem operations_preserve_instance (c : Call) (st : St) :
  this (snd (invoke c st)) = this st.
Proof.
  revert st. change (preserves_this (invoke c)).
  destruct c; cbn [invoke]; apply preserves_fmap.
  - unfold platform. preserve.
  - unfold handleAuth. cbv zeta.
    apply preserves_bind; [apply preserves_get_this|]. intros this0.
    apply preserves_bind; [apply preserves_get_location|]. intros l.
    destruct (truthy _); [|apply preserves_ret].
    destruct (negb _); [apply preserves_ret|].
    apply preserves_bind; [apply preserves_set_location|]. intros _.
    apply preserves_bind; [apply preserves_getAccessToken|]. intros tok.
    apply preserves_ret.
  - apply preserves_getAccessToken.
  - unfold getUser. preserve.
  - unfold getIssue. cbv zeta. preserve.
  - unfold postIssue. preserve.
  - apply preserves_getComments.
  - unfold postComment.
    apply preserves_bind; [apply preserves_get_this|]. intros this0.
    apply preserves_bind; [apply preserves_request|]. intros response.
    apply preserves_bind; [apply preserves_lift|]. intros contentRaw.
    apply preserves_bind; [apply preserves_getMarkdownContent|]. intros html.
    preserve.
  - unfold putComment. preserve.
  - unfold deleteComment. preserve.
  - apply preserves_getMarkdownContent.
Qed.

(** *** Errors of the transport *)

Lemma raised_app (l1 l2 : list (Request * Completion Response)) :
  raised (l1 ++ l2) = (raised l1 ++ raised l2)%list.
Proof. unfold raised. apply flat_map_app. Qed.

Lemma get_throws (v : JsVal) (name : string) : throws_TypeError_only (get v name).
Proof. unfold throws_TypeError_only, get. destruct (nullish v); congruence. Qed.

Lemma get_first_throws (v : JsVal) : throws_TypeError_only (get_first v).
Proof. unfold throws_TypeError_only. destruct v; cbn; congruence. Qed.

Lemma set_throws (v : JsVal) (name : string) (x : JsVal) :
  throws_TypeError_only (set v name x).
Proof. unfold throws_TypeError_only. destruct v; cbn; congruence. Qed.

Lemma iterate_throws (v : JsVal) : throws_TypeError_only (iterate v).
Proof. unfold throws_TypeError_only. destruct v; cbn; congruence. Qed.

Lemma map_throwing_throws {A B} (f : A -> Completion B) (l : list A) :
  (forall a, throws_TypeError_only (f a)) ->
  throws_TypeError_only (map_throwing f l).
Proof.
  intros Hf. induction l as [|a l IH]; cbn [map_throwing].
  - intros e. discriminate.
  - intros e. specialize (Hf a). destruct (f a) as [b|e1]; cbn [cbind].
    + destruct (map_throwing f l) as [bs|e2]; cbn [cbind].
      * discriminate.
      * intros [= <-]. now apply IH.
    + intros [= <-]. now apply Hf.
Qed.

(** *** getIssue *)


(** [getIssue] run by hand, on either side of [if (issueId)]. *)
Lemma getIssue_by_id_run (accessToken issueId issueTitle : JsVal) (st : St) :
  truthy issueId = true ->
  let req :=
    {| method := GET;
       url := apiURL (this st)
                ("repos/" ++ owner (this st) ++ "/" ++ repo (this st) ++ "/issues/"
                 ++ ToString issueId);
       body := JUndefined;
       config := {| headers := authorization accessToken;
                    params := Some [("timestamp", JNum (Date_now (env (world st))))] |} |} in
  let answer := fst (send (http (this st)) req (env (world st))) in
  getIssue accessToken issueId issueTitle st =
  (match answer with
   | Return response =>
       let! issue := normalizeIssue (data response) (baseURL (this st))
                       (owner (this st)) (repo (this st)) in
       Return (Some issue)
   | Throw e =>
       match response_of e with
       | Some response => if status response =? 404 then Return None else Throw e
       | None => Throw e
       end
   end,
   {| this := this st;
      world := {| location := location (world st);
                  env := snd (send (http (this st)) req (env (world st)));
                  log := log (world st) ++ [(req, answer)] |} |}).
Proof.
  intros Hid req answer. subst answer.
  unfold getIssue, try_catch, bind, get_this, now, request, lift, ret, throw.
  rewrite Hid. fold req.
  destruct (send (http (this st)) req (env (world st))) as [[response|e] env'];
    cbn [fst snd].
  - pose proof (normalizeIssue_throws (data response) (baseURL (this st))
                  (owner (this st)) (repo (this st))) as Hthrows.
    destruct (normalizeIssue (data response) (baseURL (this st))
                (owner (this st)) (repo (this st))) as [issue|e];
      cbn [cbind]; [reflexivity|].
    now rewrite (Hthrows e eq_refl).
  - destruct (response_of e) as [response|]; [|reflexivity].
    destruct (status response =? 404); reflexivity.
Qed.

Lemma getIssue_by_title_run (accessToken issueId issueTitle : JsVal) (st : St) :
  truthy issueId = false ->
  let req :=
    {| method := GET;
       url := apiURL (this st)
                ("repos/" ++ owner (this st) ++ "/" ++ repo (this st) ++ "/issues");
       body := JUndefined;
       config := {| headers := authorization accessToken;
                    params := Some [("labels", JStr (String.concat "," (labels (this st))));
                                    ("q", issueTitle);
                                    ("timestamp", JNum (Date_now (env (world st))))] |} |} in
  let answer := fst (send (http (this st)) req (env (world st))) in
  getIssue accessToken issueId issueTitle st =
  (match answer with
   | Return response =>
       let! size := get (data response) "size" in
       if gt_zero size then
         let! values := get (data response) "values" in
         let! first := get_first values in
         let! issue := normalizeIssue first (baseURL (this st))
                         (owner (this st)) (repo (this st)) in
         Return (Some issue)
       else Return None
   | Throw e => Throw e
   end,
   {| this := this st;
      world := {| location := location (world st);
                  env := snd (send (http (this st)) req (env (world st)));
                  log := log (world st) ++ [(req, answer)] |} |}).
Proof.
  intros Hid req answer. subst answer.
  unfold getIssue, bind, get_this, now, request, lift, ret.
  rewrite Hid. fold req.
  destruct (send (http (this st)) req (env (world st))) as [[response|e] env'];
    cbn [fst snd]; [|reflexivity].
  destruct (get (data response) "size") as [size|e]; cbn [cbind]; [|reflexivity].
  destruct (gt_zero size); [|reflexivity].
  destruct (get (data response) "values") as [values|e]; cbn [cbind]; [|reflexivity].
  destruct (get_first values) as [first|e]; cbn [cbind]; [|reflexivity].
  destruct (normalizeIssue first (baseURL (this st)) (owner (this st))
              (repo (this st))); reflexivity.
Qed.

(** C9, as the code has it: called without an issue id (one that fails
    [if (issueId)]), [getIssue] sends one GET to the issues endpoint of the
    repository, with params labels (the configured labels joined by
    commas), q (the title) and a timestamp.  When the GET fails its error
    is rethrown, and on a [null] or [undefined] body reading its size
    throws a [TypeError].  On any other body it resolves to a non-null
    issue only when the size of the body is greater than 0, and then to the
    normalized [values[0]] of the body (the first element of the array
    [values]; what normalizing throws is thrown); a body whose size is not
    greater than 0 gives [null], a plain array in particular. *)
Theorem getIssue_by_title (accessToken issueId issueTitle : JsVal) (st : St) :
  truthy issueId = false ->
  let req :=
    {| method := GET;
       url := apiURL (this st)
                ("repos/" ++ owner (this st) ++ "/" ++ repo (this st) ++ "/issues");
       body := JUndefined;
       config := {| headers := authorization accessToken;
                    params := Some [("labels", JStr (String.concat "," (labels (this st))));
                                    ("q", issueTitle);
                                    ("timestamp", JNum (Date_now (env (world st))))] |} |} in
  let answer := fst (send (http (this st)) req (env (world st))) in
  let result := fst (getIssue accessToken issueId issueTitle st) in
  let st' := snd (getIssue accessToken issueId issueTitle st) in
  let normalized (response : Response) :=
    let! values := get (data response) "values" in
    let! first := get_first values in
    normalizeIssue first (baseURL (this st)) (owner (this st)) (repo (this st)) in
  log (world st') = (log (world st) ++ [(req, answer)])%list
  /\ (forall e, answer = Throw e -> result = Throw e)
  /\ (forall response, answer = Return response ->
      nullish (data response) = true -> result = Throw TypeError)
  /\ (forall issue, result = Return (Some issue) ->
      exists response,
        answer = Return response /\
        gt_zero (prop (data response) "size") = true /\
        normalized response = Return issue)
  /\ (forall response, answer = Return response ->
      gt_zero (prop (data response) "size") = true ->
      result = (let! issue := normalized response in Return (Some issue)))
  /\ (forall response first rest, answer = Return response ->
      gt_zero (prop (data response) "size") = true ->
      prop (data response) "values" = JArr (first :: rest) ->
      result =
        (let! issue := normalizeIssue first (baseURL (this st)) (owner (this st))
                         (repo (this st)) in
         Return (Some issue)))
  /\ (forall response, answer = Return response ->
      nullish (data response) = false ->
      gt_zero (prop (data response) "size") = false ->
      result = Return None)
  /\ (forall response elements, answer = Return response ->
      data response = JArr elements ->
      result = Return None).
Proof.
  intros Hid req answer result st' normalized.
  subst result st'. rewrite (getIssue_by_title_run _ _ issueTitle _ Hid).
  fold req. fold answer. cbn [fst snd this world log].
  assert (Hbody : forall response,
             gt_zero (prop (data response) "size") = true ->
             nullish (data response) = false).
  { intros response Hsize.
    destruct (data response); try reflexivity; cbn in Hsize; discriminate. }
  assert (Hpositive : forall response,
             gt_zero (prop (data response) "size") = true ->
             (let! size := get (data response) "size" in
              if gt_zero size then
                let! values := get (data response) "values" in
                let! first := get_first values in
                let! issue := normalizeIssue first (baseURL (this st))
                                (owner (this st)) (repo (this st)) in
                Return (Some issue)
              else Return None)
             = (let! issue := normalized response in Return (Some issue))).
  { intros response Hsize.
    rewrite (get_defined _ "size" (Hbody response Hsize)). cbn [cbind].
    rewrite Hsize. subst normalized. cbv beta.
    destruct (get (data response) "values") as [values|e]; [|reflexivity].
    cbn [cbind]. destruct (get_first values) as [first|e]; reflexivity. }
  split; [reflexivity|]. split; [|split; [|split; [|split; [|split; [|split]]]]].
  - now intros e ->.
  - intros response -> Hnull. now rewrite (get_nullish _ "size" Hnull).
  - intros issue. destruct answer as [response|e]; [|discriminate].
    unfold get at 1. destruct (nullish (data response)); [discriminate|].
    cbn [cbind].
    destruct (gt_zero (prop (data response) "size")) eqn:Hsize; [|discriminate].
    intros Hres. exists response. split; [reflexivity|]. split; [exact Hsize|].
    subst normalized. cbv beta.
    destruct (get (data response) "values") as [values|e]; [|discriminate].
    cbn [cbind] in Hres |- *.
    destruct (get_first values) as [first|e]; [|discriminate].
    cbn [cbind] in Hres |- *.
    destruct (normalizeIssue first _ _ _) as [issue'|e]; [|discriminate].
    cbn [cbind] in Hres. congruence.
  - intros response -> Hsize. now apply Hpositive.
  - intros response first rest -> Hsize Hvalues.
    rewrite (Hpositive response Hsize). subst normalized. cbv beta.
    rewrite (get_defined _ "values" (Hbody response Hsize)), Hvalues.
    reflexivity.
  - intros response -> Hnull Hsize.
    rewrite (get_defined _ "size" Hnull). cbn [cbind]. now rewrite Hsize.
  - intros response elements -> Hdata. rewrite Hdata. reflexivity.
Qed.

(** *** getComments *)

Lemma bind_returns {A B} (m : M A) (f : A -> M B) (st : St) (b : B) :
  fst (bind m f st) = Return b ->
  exists a st1, m st = (Return a, st1) /\ fst (f a st1) = Return b.
Proof.
  unfold bind. destruct (m st) as [[a|e] st1]; cbn [fst].
  - intros Hb. now exists a, st1.
  - discriminate.
Qed.

Lemma map_throwing_Forall {A B} (f : A -> Completion B) (P : B -> Prop)
  (l : list A) (bs : list B) :
  (forall a b, f a = Return b -> P b) ->
  map_throwing f l = Return bs -> Forall P bs.
Proof.
  intros Hf. revert bs. induction l as [|a l IH]; intros bs; cbn [map_throwing].
  - intros [= <-]. constructor.
  - destruct (f a) as [b|e] eqn:Hb; cbn [cbind]; [|discriminate].
    destruct (map_throwing f l) as [rest|e]; cbn [cbind]; [|discriminate].
    intros [= <-]. constructor; [now apply (Hf a) | now apply IH].
Qed.

(** What [getComments] resolves to: the pagination fields are constants and
    every comment carries its raw body as [content]. *)
Lemma getComments_returns (accessToken issueId : JsVal) (query : option Query.t)
  (st : St) (comments : Comments.t) :
  fst (getComments accessToken issueId query st) = Return comments ->
  Comments.count comments = 0 /\
  Comments.page comments = 0 /\
  Comments.perPage comments = 0 /\
  Forall (fun c => Comment.content c = Comment.contentRaw c) (Comments.data comments).
Proof.
  unfold getComments. cbv zeta. intros Hrun.
  apply bind_returns in Hrun as (this0 & st1 & _ & Hrun).
  apply bind_returns in Hrun as (timestamp & st2 & _ & Hrun).
  apply bind_returns in Hrun as (response & st3 & _ & Hrun).
  apply bind_returns in Hrun as (raw & st4 & _ & Hrun).
  apply bind_returns in Hrun as (enriched & st5 & _ & Hrun).
  destruct (data response); try discriminate.
  apply bind_returns in Hrun as (items & st6 & Hitems & Hrun).
  cbn in Hrun. injection Hrun as <-. cbn [Comments.count Comments.page
    Comments.perPage Comments.data].
  repeat split.
  unfold lift in Hitems. injection Hitems as Hitems _.
  apply (map_throwing_Forall _ _ _ _ (fun item c Hc =>
           let '(conj Hcontent Hraw) := normalizeComment_content item _ c Hc in
           eq_trans Hcontent (eq_sym Hraw)) Hitems).
Qed.

(** C10: whatever the query object holds, the page, perPage and sort
    arguments change neither the requests sent nor the outcome (the result
    and the world after the call are the same for any two query objects),
    and the value resolved has count, page and perPage 0. *)
Theorem getComments_ignores_query (accessToken issueId : JsVal)
  (query query' : option Query.t) (st : St) :
  getComments accessToken issueId query st = getComments accessToken issueId query' st
  /\ forall comments,
       fst (getComments accessToken issueId query st) = Return comments ->
       Comments.count comments = 0 /\
       Comments.page comments = 0 /\
       Comments.perPage comments = 0.
Proof.
  split; [reflexivity|].
  intros comments Hrun.
  destruct (getComments_returns _ _ _ _ _ Hrun) as (Hcount & Hpage & HperPage & _).
  now repeat split.
Qed.

(** *** Mapping a result *)

Lemma fmap_run {A B} (f : A -> B) (m : M A) (st : St) :
  fmap f m st =
  (match fst (m st) with
   | Return a => Return (f a)
   | Throw e => Throw e
   end, snd (m st)).
Proof. unfold fmap, bind, ret. destruct (m st) as [[a|e] st1]; reflexivity. Qed.

End AdapterFacts.

(** ** index.ts: what the operations send and touch *)

Section AdapterEdges.
Context {U : Utils} {H : Host}.

Lemma new_exchanges_app (st st' : St) (new : list (Request * Completion Response)) :
  log (world st') = (log (world st) ++ new)%list -> new_exchanges st st' = new.
Proof.
  intros Hlog. unfold new_exchanges. rewrite Hlog.
  rewrite skipn_app, skipn_all, Nat.sub_diag. reflexivity.
Qed.

(** *** Requests of a given kind only *)

Lemma sends_only_silent (P : Request -> Prop) {A} (m : M A) :
  (forall st, log (world (snd (m st))) = log (world st)) -> sends_only P m.
Proof.
  intros Hsilent st. exists []. rewrite app_nil_r. split; [apply Hsilent|constructor].
Qed.

Lemma sends_only_request (P : Request -> Prop) (r : Request) :
  P r -> sends_only P (request r).
Proof.
  intros Hr st. unfold request.
  destruct (send (http (this st)) r (env (world st))) as [a env'].
  exists [(r, a)]. split; [reflexivity|]. now repeat constructor.
Qed.

Lemma sends_only_bind (P : Request -> Prop) {A B} (m : M A) (f : A -> M B) :
  sends_only P m -> (forall a, sends_only P (f a)) -> sends_only P (bind m f).
Proof.
  intros Hm Hf st. destruct (Hm st) as (new1 & Hlog1 & Hall1).
  unfold bind. destruct (m st) as [[a|e] st1]; cbn [fst snd] in *.
  - destruct (Hf a st1) as (new2 & Hlog2 & Hall2).
    exists (new1 ++ new2)%list. split.
    + now rewrite Hlog2, Hlog1, app_assoc.
    + apply Forall_app. now split.
  - now exists new1.
Qed.

Lemma sends_only_try_catch (P : Request -> Prop) {A} (m : M A)
  (handler : JsError -> M A) :
  sends_only P m -> (forall e, sends_only P (handler e)) ->
  sends_only P (try_catch m handler).
Proof.
  intros Hm Hh st. destruct (Hm st) as (new1 & Hlog1 & Hall1).
  unfold try_catch. destruct (m st) as [[a|e] st1]; cbn [fst snd] in *.
  - now exists new1.
  - destruct (Hh e st1) as (new2 & Hlog2 & Hall2).
    exists (new1 ++ new2)%list. split.
    + now rewrite Hlog2, Hlog1, app_assoc.
    + apply Forall_app. now split.
Qed.

Lemma sends_only_all (P : Request -> Prop) {A B} (task : B -> M A) (l : list B) :
  (forall b, sends_only P (task b)) -> sends_only P (all (map task l)).
Proof.
  intros Htask. induction l as [|b l IH]; intros st; cbn [map all].
  - exists []. rewrite app_nil_r. split; [reflexivity|constructor].
  - destruct (Htask b st) as (new1 & Hlog1 & Hall1).
    destruct (task b st) as [r st1]. cbn [fst snd] in *.
    destruct (IH st1) as (new2 & Hlog2 & Hall2).
    destruct (all (map task l) st1) as [rs st2]. cbn [fst snd] in *.
    exists (new1 ++ new2)%list. split.
    + now rewrite Hlog2, Hlog1, app_assoc.
    + apply Forall_app. now split.
Qed.

Ltac sending solve_request :=
  repeat first
    [ solve [apply sends_only_silent; intros ?; reflexivity]
    | apply sends_only_request; solve_request
    | apply sends_only_try_catch; [|intros ?]
    | apply sends_only_bind; [|intros ?]
    | match goal with
      | |- sends_only _ (if ?b then _ else _) => destruct b
      | |- sends_only _ (match ?x with _ => _ end) => destruct x
      end ].

Lemma sends_only_getMarkdownContent (P : Request -> Prop)
  (accessToken contentRaw : JsVal) :
  (forall r, method r = POST ->
             headers (config r) = authorization accessToken -> P r) ->
  sends_only P (getMarkdownContent accessToken contentRaw).
Proof.
  intros HP. unfold getMarkdownContent.
  sending ltac:(apply HP; reflexivity).
Qed.

Lemma sends_only_getComments (P : Request -> Prop)
  (accessToken issueId : JsVal) (query : option Query.t) :
  (forall r, (method r = GET \/ method r = POST) ->
             headers (config r) = authorization accessToken -> P r) ->
  sends_only P (getComments accessToken issueId query).
Proof.
  intros HP. unfold getComments. cbv zeta.
  apply sends_only_bind; [sending idtac|]. intros this0.
  apply sends_only_bind; [sending idtac|]. intros timestamp.
  apply sends_only_bind.
  { apply sends_only_request. apply HP; [now left|reflexivity]. }
  intros response.
  apply sends_only_bind; [sending idtac|]. intros comments.
  apply sends_only_bind.
  - apply sends_only_all. intros comment. unfold getCommentMeta.
    apply sends_only_bind; [sending idtac|]. intros contentRaw.
    apply sends_only_bind; [|intros html; sending idtac].
    apply sends_only_getMarkdownContent. intros r Hm Hh. apply HP; [now right|exact Hh].
  - intros enriched. sending idtac.
Qed.

Lemma sends_only_postComment (P : Request -> Prop)
  (accessToken issueId : JsVal) (content : string) :
  (forall r, method r = POST ->
             headers (config r) = Some (bearer accessToken) \/
             headers (config r) = authorization accessToken -> P r) ->
  sends_only P (postComment accessToken issueId content).
Proof.
  intros HP. unfold postComment.
  apply sends_only_bind; [sending idtac|]. intros this0.
  apply sends_only_bind.
  { apply sends_only_request. apply HP; [reflexivity|now left]. }
  intros response.
  apply sends_only_bind; [sending idtac|]. intros contentRaw.
  apply sends_only_bind; [|intros html; sending idtac].
  apply sends_only_getMarkdownContent. intros r Hm Hh. apply HP; [exact Hm|now right].
Qed.

Lemma sends_only_fmap (P : Request -> Prop) {A B} (f : A -> B) (m : M A) :
  sends_only P m -> sends_only P (fmap f m).
Proof.
  intros Hm. apply sends_only_bind; [exact Hm|]. intros a.
  apply sends_only_silent. intros st. reflexivity.
Qed.

(** X11: an operation only uses its own HTTP methods.  [getUser] and
    [getIssue] send nothing but GET, [getComments] nothing but GET and POST
    (its renderings), [putComment] only PATCH, [deleteComment] only DELETE,
    the others only POST, and the platform getter sends nothing. *)
Theorem operations_use_their_methods (c : Call) (st : St) :
  Forall (fun x => may_use c (method (fst x)) = true)
    (new_exchanges st (snd (invoke c st))).
Proof.
  assert (Hsends : sends_only (fun r => may_use c (method r) = true) (invoke c)).
  { destruct c; cbn [invoke]; apply sends_only_fmap.
    - unfold platform. sending idtac.
    - unfold handleAuth. cbv zeta.
      apply sends_only_bind; [sending idtac|]. intros this0.
      apply sends_only_bind; [sending idtac|]. intros l.
      destruct (truthy _); [|sending idtac].
      destruct (negb _); [sending idtac|].
      apply sends_only_bind; [sending idtac|]. intros _.
      apply sends_only_bind; [|intros token; sending idtac].
      unfold getAccessToken. sending ltac:(reflexivity).
    - unfold getAccessToken. sending ltac:(reflexivity).
    - unfold getUser. sending ltac:(reflexivity).
    - unfold getIssue. cbv zeta. sending ltac:(reflexivity).
    - apply sends_only_fmap. unfold postIssue. sending ltac:(reflexivity).
    - apply sends_only_getComments. intros r [Hm|Hm] _; cbn; now rewrite Hm.
    - apply sends_only_postComment. intros r Hm _. cbn. now rewrite Hm.
    - unfold putComment. sending ltac:(reflexivity).
    - unfold deleteComment. sending ltac:(reflexivity).
    - apply sends_only_getMarkdownContent. intros r Hm _. cbn. now rewrite Hm. }
  destruct (Hsends st) as (new & Hlog & Hall).
  now rewrite (new_exchanges_app _ _ _ Hlog).
Qed.


(** *** window.location *)

Lemma location_unchanged {A} (m : M A) :
  (forall st, location (world (snd (m st))) = location (world st)) ->
  preserves_location m.
Proof. intros Hm. exact Hm. Qed.

Lemma location_request (r : Request) : preserves_location (request r).
Proof.
  intros st. unfold request.
  destruct (send (http (this st)) r (env (world st))). reflexivity.
Qed.

Lemma location_bind {A B} (m : M A) (f : A -> M B) :
  preserves_location m -> (forall a, preserves_location (f a)) ->
  preserves_location (bind m f).
Proof.
  intros Hm Hf st. unfold bind. specialize (Hm st).
  destruct (m st) as [[a|e] st1]; cbn [fst snd] in Hm |- *.
  - now rewrite Hf.
  - exact Hm.
Qed.

Lemma location_try_catch {A} (m : M A) (handler : JsError -> M A) :
  preserves_location m -> (forall e, preserves_location (handler e)) ->
  preserves_location (try_catch m handler).
Proof.
  intros Hm Hh st. unfold try_catch. specialize (Hm st).
  destruct (m st) as [[a|e] st1]; cbn [fst snd] in Hm |- *.
  - exact Hm.
  - now rewrite Hh.
Qed.

Lemma location_all {A B} (task : B -> M A) (l : list B) :
  (forall b, preserves_location (task b)) ->
  preserves_location (all (map task l)).
Proof.
  intros Htask. induction l as [|b l IH]; intros st; cbn [map all].
  - reflexivity.
  - specialize (Htask b st). destruct (task b st) as [r st1].
    specialize (IH st1). destruct (all (map task l) st1) as [rs st2].
    cbn [fst snd] in *. congruence.
Qed.

Ltac located :=
  repeat first
    [ solve [apply location_unchanged; intros ?; reflexivity]
    | apply location_request
    | apply location_try_catch; [|intros ?]
    | apply location_bind; [|intros ?]
    | match goal with
      | |- preserves_location (if ?b then _ else _) => destruct b
      | |- preserves_location (match ?x with _ => _ end) => destruct x
      end ].

Lemma location_getMarkdownContent (accessToken contentRaw : JsVal) :
  preserves_location (getMarkdownContent accessToken contentRaw).
Proof. unfold getMarkdownContent. located. Qed.

Lemma location_getAccessToken (code : JsVal) :
  preserves_location (getAccessToken code).
Proof. unfold getAccessToken. located. Qed.

Lemma location_getComments (accessToken issueId : JsVal) (query : option Query.t) :
  preserves_location (getComments accessToken issueId query).
Proof.
  unfold getComments. cbv zeta.
  apply location_bind; [located|]. intros this0.
  apply location_bind; [located|]. intros timestamp.
  apply location_bind; [located|]. intros response.
  apply location_bind; [located|]. intros comments.
  apply location_bind.
  - apply location_all. intros comment. unfold getCommentMeta.
    apply location_bind; [located|]. intros contentRaw.
    apply location_bind; [apply location_getMarkdownContent|]. intros html.
    located.
  - intros enriched. located.
Qed.

Lemma location_fmap {A B} (f : A -> B) (m : M A) :
  preserves_location m -> preserves_location (fmap f m).
Proof.
  intros Hm. apply location_bind; [exact Hm|]. intros a. located.
Qed.

(** X10: of the methods of the adapter, only [redirectAuth] and
    [handleAuth] touch the browser URL.  [redirectAuth] assigns the
    authorize URL of the forge, with the client id, the current page as
    redirect_uri, the response type code and the configured state, and
    sends nothing.  [handleAuth] ends with the [window.location] it started
    with, or with the location [history.replaceState] gives for the clean
    URL, the query without code and state, and the hash.  Every other
    operation ends with the location it started with, the two reaction
    methods included, which only throw. *)
Theorem operations_keep_location (c : Call) (st : St) :
  let after := location (world (snd (invoke c st))) in
  match c with
  | Call_handleAuth =>
      let query := parseQuery (search (location (world st))) in
      after = location (world st) \/
      after =
        replaceState
          (buildURL (getCleanURL (href (location (world st))))
             (delete "state" (delete "code" query)) ++ hash (location (world st)))
          (location (world st))
  | _ => after = location (world st)
  end
  /\ location (world (snd (redirectAuth st)))
     = assign_href
         (buildURL (concatURL (baseURL (this st)) (JStr "login/oauth/authorize"))
            [("client_id", JStr (clientId (this st)));
             ("redirect_uri", JStr (href (location (world st))));
             ("response_type", JStr "code");
             ("state", JStr (state (this st)))])
         (location (world st))
  /\ new_exchanges st (snd (redirectAuth st)) = []
  /\ this (snd (redirectAuth st)) = this st
  /\ (forall accessToken issueId commentId reaction,
        getCommentReactions accessToken issueId commentId st
        = (Throw (Error "501 Not Implemented"), st) /\
        postCommentReaction accessToken issueId commentId reaction st
        = (Throw (Error "501 Not Implemented"), st)).
Proof.
  cbv zeta.
  split; [|split; [reflexivity|split; [|split; [reflexivity|now split]]]].
  2:{ apply new_exchanges_app. cbn. now rewrite app_nil_r. }
  assert (Hfmap : forall A (f : A -> Value) (m : M A),
             preserves_location m ->
             location (world (snd (fmap f m st))) = location (world st)).
  { intros A f m Hm. exact (location_fmap f m Hm st). }
  destruct c; cbn [invoke]; try (apply Hfmap).
  - unfold platform. located.
  - rewrite fmap_run. cbn [snd].
    unfold handleAuth, bind, get_this, get_location, set_location, ret.
    destruct (truthy _); [|now left].
    destruct (negb _); [now left|]. right.
    match goal with
    | |- context [getAccessToken ?code ?st1] =>
        pose proof (location_getAccessToken code st1) as Hloc;
        destruct (getAccessToken code st1) as [[token|e] st2]
    end; exact Hloc.
  - apply location_getAccessToken.
  - unfold getUser. located.
  - unfold getIssue. cbv zeta. located.
  - apply location_fmap. unfold postIssue. located.
  - apply location_getComments.
  - unfold postComment.
    apply location_bind; [located|]. intros this0.
    apply location_bind; [located|]. intros response.
    apply location_bind; [located|]. intros contentRaw.
    apply location_bind; [apply location_getMarkdownContent|]. intros html.
    located.
  - unfold putComment. located.
  - unfold deleteComment. located.
  - apply location_getMarkdownContent.
Qed.

(** *** One exchange *)

Lemma bind_get_this {A} (f : GiteaV1 -> M A) (st : St) :
  bind get_this f st = f (this st) st.
Proof. reflexivity. Qed.

Lemma bind_get_location {A} (f : Location -> M A) (st : St) :
  bind get_location f st = f (location (world st)) st.
Proof. reflexivity. Qed.

Lemma bind_now {A} (f : Z -> M A) (st : St) :
  bind now f st = f (Date_now (env (world st))) st.
Proof. reflexivity. Qed.

Lemma bind_request {A} (r : Request) (f : Response -> M A) (st : St) :
  bind (request r) f st =
  match answer st r with
  | Return response => f response (exchanged st r)
  | Throw e => (Throw e, exchanged st r)
  end.
Proof.
  unfold bind, request, exchanged, answer.
  destruct (send (http (this st)) r (env (world st))) as [[response|e] env'];
    reflexivity.
Qed.

Lemma bind_lift {A B} (c : Completion A) (f : A -> M B) (st : St) :
  bind (lift c) f st =
  match c with
  | Return a => f a st
  | Throw e => (Throw e, st)
  end.
Proof. unfold bind, lift. destruct c; reflexivity. Qed.

Lemma log_exchanged (st : St) (r : Request) :
  new_exchanges st (exchanged st r) = [(r, answer st r)].
Proof. now apply new_exchanges_app. Qed.

Lemma quiet_bind {A B} (m : M A) (f : A -> M B) :
  quiet m -> (forall a, quiet (f a)) -> quiet (bind m f).
Proof.
  intros Hm Hf st. unfold bind. specialize (Hm st).
  destruct (m st) as [[a|e] st1]; cbn [snd] in Hm; subst st1.
  - apply Hf.
  - reflexivity.
Qed.

Ltac quietly :=
  repeat first
    [ solve [intros ?; reflexivity]
    | apply quiet_bind; [|intros ?]
    | match goal with
      | |- quiet (if ?b then _ else _) => destruct b
      end ].

Lemma once_request {A} (r : Request) (f : Response -> M A) :
  (forall response, quiet (f response)) -> exchanges_once (bind (request r) f).
Proof.
  intros Hf st. exists r. rewrite bind_request.
  destruct (answer st r) as [response|e].
  - split; [apply Hf|discriminate].
  - split; [reflexivity|]. now intros e' [= <-].
Qed.

Lemma once_after {A B} (m : M A) (f : A -> M B) (a : St -> A) :
  (forall st, m st = (Return (a st), st)) ->
  (forall x, exchanges_once (f x)) -> exchanges_once (bind m f).
Proof.
  intros Hm Hf st. unfold bind. rewrite Hm. apply Hf.
Qed.

Lemma once_fmap {A B} (f : A -> B) (m : M A) :
  exchanges_once m -> exchanges_once (fmap f m).
Proof.
  intros Hm st. destruct (Hm st) as (r & Hsnd & Hthrow). exists r.
  rewrite fmap_run. cbn [fst snd]. split; [exact Hsnd|].
  intros e He. now rewrite (Hthrow e He).
Qed.

Ltac single :=
  repeat first
    [ apply once_request; intros ?; quietly
    | apply (once_after _ _ (fun st => this st)); [intros ?; reflexivity|intros ?]
    | apply (once_after _ _ (fun st => location (world st)));
      [intros ?; reflexivity|intros ?]
    | apply (once_after _ _ (fun st => Date_now (env (world st))));
      [intros ?; reflexivity|intros ?] ].

(** X21: [getAccessToken], [getUser], [getIssue], [postIssue], [putComment],
    [deleteComment] and [getMarkdownContent] make exactly one exchange per
    call, whatever its outcome, and when the transport fails they reject
    with its very error, [getIssue] by id on a 404 response apart. *)
Theorem operations_exchange_once (c : Call) (st : St) :
  one_exchange c = true ->
  exists r,
    new_exchanges st (snd (invoke c st)) = [(r, answer st r)] /\
    forall e, answer st r = Throw e ->
      fst (invoke c st) = Throw e \/
      (by_id c = true /\ fst (invoke c st) = Return (VIssue None) /\
       exists response, e = AxiosError (Some response) /\ status response = 404).
Proof.
  intros Hone.
  assert (Hstrict : exchanges_once (invoke c) ->
            exists r,
              new_exchanges st (snd (invoke c st)) = [(r, answer st r)] /\
              forall e, answer st r = Throw e ->
                fst (invoke c st) = Throw e \/
                (by_id c = true /\ fst (invoke c st) = Return (VIssue None) /\
                 exists response, e = AxiosError (Some response) /\
                                  status response = 404)).
  { intros Honce. destruct (Honce st) as (r & Hsnd & Hthrow). exists r.
    rewrite Hsnd. split; [apply log_exchanged|]. intros e He. left. auto. }
  destruct c; try discriminate; cbn [invoke] in *.
  - apply Hstrict, once_fmap. unfold getAccessToken. single.
  - apply Hstrict, once_fmap. unfold getUser. single.
  - destruct (truthy issueId) eqn:Hid.
    + clear Hstrict. rewrite fmap_run.
      rewrite (getIssue_by_id_run accessToken issueId issueTitle st Hid).
      cbn [fst snd by_id]. eexists. split; [apply log_exchanged|].
      unfold answer. intros e ->. rewrite Hid.
      destruct e as [|[response|]|message]; cbn [response_of]; try (now left).
      destruct (status response =? 404) eqn:Hstatus; [|now left].
      right. split; [reflexivity|]. split; [reflexivity|].
      exists response. split; [reflexivity|]. now apply Z.eqb_eq.
    + apply Hstrict, once_fmap. unfold getIssue. cbv zeta.
      apply (once_after _ _ (fun st => this st)); [intros ?; reflexivity|].
      intros this0. rewrite Hid. single.
  - apply Hstrict, once_fmap, once_fmap. unfold postIssue. single.
  - apply Hstrict, once_fmap. unfold putComment. single.
  - apply Hstrict, once_fmap. unfold deleteComment. single.
  - apply Hstrict, once_fmap. unfold getMarkdownContent. single.
Qed.

(** *** The token exchange *)

Lemma getAccessToken_run (code : JsVal) (st : St) :
  let r :=
    {| method := POST;
       url := match proxy (this st) with
              | ProxyFunction f =>
                  f (concatURL (baseURL (this st)) (JStr "login/oauth/access_token"))
              | ProxyString s => s
              end;
       body := JStr (buildQuery
                       [("client_id", JStr (clientId (this st)));
                        ("client_secret", JStr (clientSecret (this st)));
                        ("code", code);
                        ("grant_type", JStr "authorization_code");
                        ("redirect_uri", JStr (href (location (world st))))]);
       config := {| headers := Some [("Content-Type", "application/x-www-form-urlencoded")];
                    params := None |} |} in
  getAccessToken code st =
  (match answer st r with
   | Return response => get (data response) "access_token"
   | Throw e => Throw e
   end, exchanged st r).
Proof.
  cbv zeta. unfold getAccessToken.
  rewrite bind_get_this. cbv beta zeta.
  rewrite bind_get_location. cbv beta.
  rewrite bind_request. unfold lift.
  destruct (answer st _); reflexivity.
Qed.

(** X13: [getAccessToken] posts the form-encoded code once, to the proxy
    (a string proxy as it is, a function proxy applied to the token URL of
    the forge), with the current page as redirect_uri.  It rejects with the
    error of the transport, as raised; it throws a [TypeError] on a [null]
    or [undefined] body; on any other body it resolves to the
    [access_token] property, which is [undefined] when the body has none. *)
Theorem getAccessToken_exchange (code : JsVal) (st : St) :
  exists r,
    new_exchanges st (snd (getAccessToken code st)) = [(r, answer st r)] /\
    method r = POST /\
    url r = match proxy (this st) with
            | ProxyFunction f =>
                f (concatURL (baseURL (this st)) (JStr "login/oauth/access_token"))
            | ProxyString s => s
            end /\
    body r = JStr (buildQuery
                     [("client_id", JStr (clientId (this st)));
                      ("client_secret", JStr (clientSecret (this st)));
                      ("code", code);
                      ("grant_type", JStr "authorization_code");
                      ("redirect_uri", JStr (href (location (world st))))]) /\
    (forall e, answer st r = Throw e -> fst (getAccessToken code st) = Throw e) /\
    (forall response, answer st r = Return response ->
       fst (getAccessToken code st) =
         if nullish (data response) then Throw TypeError
         else Return (prop (data response) "access_token")) /\
    (forall response properties, answer st r = Return response ->
       data response = JObj properties ->
       lookup "access_token" properties = JUndefined ->
       fst (getAccessToken code st) = Return JUndefined).
Proof.
  pose proof (getAccessToken_run code st) as Hrun. cbv zeta in Hrun.
  eexists. rewrite Hrun. cbn [fst snd].
  split; [apply log_exchanged|].
  split; [reflexivity|]. split; [reflexivity|]. split; [reflexivity|].
  split; [|split].
  - now intros e ->.
  - intros response ->. reflexivity.
  - intros response properties -> Hdata Hmissing.
    unfold get. rewrite Hdata. cbn. now rewrite Hmissing.
Qed.

Lemma handleAuth_run (st : St) :
  let query := parseQuery (search (location (world st))) in
  truthy (lookup "code" query) = true ->
  strict_eq_string (lookup "state" query) (state (this st)) = true ->
  handleAuth st =
  getAccessToken (lookup "code" query)
    {| this := this st;
       world := {| location :=
                     replaceState
                       (buildURL (getCleanURL (href (location (world st))))
                          (delete "state" (delete "code" query))
                        ++ hash (location (world st)))
                       (location (world st));
                   env := env (world st);
                   log := log (world st) |} |}.
Proof.
  intros query Hcode Hstate.
  unfold handleAuth, bind, get_this, get_location, set_location, ret.
  fold query. rewrite Hcode, Hstate. cbn [negb].
  destruct (getAccessToken (lookup "code" query) _) as [[token|e] st1];
    reflexivity.
Qed.

(** X14: when the query carries a code and the configured state,
    [handleAuth] has replaced the browser URL before it asks for the token:
    the redirect_uri it sends is the replaced URL, not the callback URL
    with its code and state; it makes that one exchange only, and the URL
    stays replaced when the exchange fails. *)
Theorem handleAuth_token_request (st : St) :
  let query := parseQuery (search (location (world st))) in
  let code := lookup "code" query in
  let replaced :=
    replaceState
      (buildURL (getCleanURL (href (location (world st))))
         (delete "state" (delete "code" query)) ++ hash (location (world st)))
      (location (world st)) in
  truthy code = true ->
  strict_eq_string (lookup "state" query) (state (this st)) = true ->
  location (world (snd (handleAuth st))) = replaced /\
  exists r a,
    new_exchanges st (snd (handleAuth st)) = [(r, a)] /\
    method r = POST /\
    body r = JStr (buildQuery
                     [("client_id", JStr (clientId (this st)));
                      ("client_secret", JStr (clientSecret (this st)));
                      ("code", code);
                      ("grant_type", JStr "authorization_code");
                      ("redirect_uri", JStr (href replaced))]) /\
    (forall e, a = Throw e -> fst (handleAuth st) = Throw e).
Proof.
  intros query code replaced Hcode Hstate.
  rewrite (handleAuth_run st Hcode Hstate). fold query. fold code.
  match goal with
  | |- context [getAccessToken code ?st1] => set (st1' := st1)
  end.
  pose proof (getAccessToken_run code st1') as Hrun. cbv zeta in Hrun.
  match type of Hrun with
  | _ = (_, exchanged _ ?r0) => set (r := r0) in *
  end.
  rewrite Hrun. cbn [fst snd].
  split; [reflexivity|].
  exists r, (answer st1' r).
  split; [apply new_exchanges_app; reflexivity|].
  split; [reflexivity|]. split; [reflexivity|].
  now intros e ->.
Qed.

Lemma lookup_delete_same (name : string) (query : list (string * JsVal)) :
  lookup name (delete name query) = JUndefined.
Proof.
  induction query as [|[k v] query IH]; cbn; [reflexivity|].
  destruct (String.eqb k name) eqn:Hk; cbn; [exact IH|].
  now rewrite Hk.
Qed.

Lemma lookup_delete_other (name deleted : string) (query : list (string * JsVal)) :
  name <> deleted ->
  lookup name (delete deleted query) = lookup name query.
Proof.
  intros Hne. induction query as [|[k v] query IH]; cbn; [reflexivity|].
  destruct (String.eqb k deleted) eqn:Hk; cbn.
  - apply String.eqb_eq in Hk. subst k.
    destruct (String.eqb deleted name) eqn:Hd; [|exact IH].
    apply String.eqb_eq in Hd. congruence.
  - destruct (String.eqb k name); [reflexivity|exact IH].
Qed.

(** C5: [handleAuth] on the current page.  Without a code in the query
    (one that passes [if (query.code)]; an absent parameter reads
    [undefined]), and with a code whose state is not the configured one, it
    resolves to [null] and touches nothing.  With a code and the configured
    state it deletes code and state from the query (every other parameter
    stays), replaces the browser URL by the clean URL with that query and
    the hash, and exchanges the code: one POST to the proxy carrying the
    client id and secret, the code, the grant type and the replaced URL as
    redirect_uri.  It resolves to the [access_token] of the response, and
    rejects with the error of the transport when the exchange fails. *)
Theorem handleAuth_exchange (st : St) :
  let query := parseQuery (search (location (world st))) in
  let code := lookup "code" query in
  let matches := strict_eq_string (lookup "state" query) (state (this st)) in
  let cleaned := delete "state" (delete "code" query) in
  let replaced :=
    replaceState
      (buildURL (getCleanURL (href (location (world st)))) cleaned
       ++ hash (location (world st)))
      (location (world st)) in
  let r :=
    {| method := POST;
       url := match proxy (this st) with
              | ProxyFunction f =>
                  f (concatURL (baseURL (this st)) (JStr "login/oauth/access_token"))
              | ProxyString s => s
              end;
       body := JStr (buildQuery
                       [("client_id", JStr (clientId (this st)));
                        ("client_secret", JStr (clientSecret (this st)));
                        ("code", code);
                        ("grant_type", JStr "authorization_code");
                        ("redirect_uri", JStr (href replaced))]);
       config := {| headers := Some [("Content-Type", "application/x-www-form-urlencoded")];
                    params := None |} |} in
  (code = JUndefined -> handleAuth st = (Return JNull, st))
  /\ (truthy code = false -> handleAuth st = (Return JNull, st))
  /\ (truthy code = true -> matches = false -> handleAuth st = (Return JNull, st))
  /\ (truthy code = true -> matches = true ->
      lookup "code" cleaned = JUndefined /\
      lookup "state" cleaned = JUndefined /\
      (forall name, name <> "code" -> name <> "state" ->
                    lookup name cleaned = lookup name query) /\
      location (world (snd (handleAuth st))) = replaced /\
      this (snd (handleAuth st)) = this st /\
      new_exchanges st (snd (handleAuth st)) = [(r, answer st r)] /\
      (forall response, answer st r = Return response ->
         nullish (data response) = false ->
         fst (handleAuth st) = Return (prop (data response) "access_token")) /\
      (forall response, answer st r = Return response ->
         nullish (data response) = true ->
         fst (handleAuth st) = Throw TypeError) /\
      (forall e, answer st r = Throw e -> fst (handleAuth st) = Throw e)).
Proof.
  intros query code matches cleaned replaced r.
  split; [|split; [|split]].
  - intros Hcode.
    unfold handleAuth, bind, get_this, get_location, ret.
    fold query. fold code. now rewrite Hcode.
  - intros Hcode.
    unfold handleAuth, bind, get_this, get_location, ret.
    fold query. fold code. now rewrite Hcode.
  - intros Hcode Hstate.
    unfold handleAuth, bind, get_this, get_location, ret.
    fold query. fold code. fold matches. now rewrite Hcode, Hstate.
  - intros Hcode Hstate.
    split; [|split; [|split]].
    { subst cleaned. rewrite lookup_delete_other by discriminate.
      apply lookup_delete_same. }
    { apply lookup_delete_same. }
    { intros name Hc Hs. subst cleaned.
      now rewrite !lookup_delete_other by assumption. }
    rewrite (handleAuth_run st Hcode Hstate). fold query. fold code.
    fold cleaned. fold replaced.
    match goal with
    | |- context [getAccessToken code ?st1] => set (st1' := st1)
    end.
    pose proof (getAccessToken_run code st1') as Hrun. cbv zeta in Hrun.
    change (location (world st1')) with replaced in Hrun.
    change (this st1') with (this st) in Hrun. fold r in Hrun.
    rewrite Hrun. cbn [fst snd].
    change (answer st1' r) with (answer st r).
    split; [reflexivity|]. split; [reflexivity|].
    split; [apply new_exchanges_app; reflexivity|].
    split; [|split].
    + intros response -> Hnull. now rewrite (get_defined _ _ Hnull).
    + intros response -> Hnull. now rewrite (get_nullish _ _ Hnull).
    + now intros e ->.
Qed.

(** *** getIssue, edge cases *)

(** X15: an issue id that fails [if (issueId)] is no id: with 0, the empty
    string, [null] or [undefined], [getIssue] searches by title, and any
    two such ids give the same requests and the same outcome. *)
Theorem getIssue_falsy_ids (accessToken issueId issueId' issueTitle : JsVal) (st : St) :
  truthy issueId = false ->
  truthy issueId' = false ->
  getIssue accessToken issueId issueTitle st
  = getIssue accessToken issueId' issueTitle st
  /\ truthy (JNum 0) = false /\ truthy (JStr EmptyString) = false
  /\ truthy JNull = false /\ truthy JUndefined = false.
Proof.
  intros Hid Hid'. split; [|now repeat split].
  now rewrite (getIssue_by_title_run accessToken issueId issueTitle st Hid),
              (getIssue_by_title_run accessToken issueId' issueTitle st Hid').
Qed.

(** X16: searching by title, a body that announces a size greater than 0
    but has no usable first value makes [getIssue] throw a [TypeError]
    instead of resolving to [null]: so when [values] is missing or [null],
    when it is an empty array, and when its first element is [null]. *)
Theorem getIssue_by_title_without_values
  (accessToken issueId issueTitle : JsVal) (st : St) (response : Response) :
  truthy issueId = false ->
  fst (send (http (this st))
         {| method := GET;
            url := apiURL (this st)
                     ("repos/" ++ owner (this st) ++ "/" ++ repo (this st) ++ "/issues");
            body := JUndefined;
            config := {| headers := authorization accessToken;
                         params := Some [("labels", JStr (String.concat "," (labels (this st))));
                                         ("q", issueTitle);
                                         ("timestamp", JNum (Date_now (env (world st))))] |} |}
         (env (world st))) = Return response ->
  gt_zero (prop (data response) "size") = true ->
  nullish (prop (data response) "values") = true \/
  (exists first, get_first (prop (data response) "values") = Return first /\
                 nullish first = true) ->
  fst (getIssue accessToken issueId issueTitle st) = Throw TypeError
  /\ get_first (JArr []) = Return JUndefined.
Proof.
  intros Hid Hanswer Hsize Hvalues. split; [|reflexivity].
  rewrite (getIssue_by_title_run accessToken issueId issueTitle st Hid).
  cbn [fst]. rewrite Hanswer.
  assert (Hnull : nullish (data response) = false).
  { destruct (data response); try reflexivity; cbn in Hsize; discriminate. }
  rewrite !(get_defined _ _ Hnull). cbn [cbind]. rewrite Hsize.
  destruct Hvalues as [Hvalues|(first & Hfirst & Hnullish)].
  - destruct (prop (data response) "values"); try discriminate; reflexivity.
  - rewrite Hfirst. cbn [cbind]. unfold normalizeIssue.
    now rewrite (get_nullish _ "number" Hnullish).
Qed.

(** *** Comments *)

Lemma deleteComment_run (accessToken issueId commentId : JsVal) (st : St) :
  let r :=
    {| method := DELETE;
       url := apiURL (this st)
                ("repos/" ++ owner (this st) ++ "/" ++ repo (this st) ++ "/issues/"
                 ++ ToString issueId ++ "/comments/" ++ ToString commentId);
       body := JUndefined;
       config := {| headers := Some (bearer accessToken); params := None |} |} in
  deleteComment accessToken issueId commentId st =
  (match answer st r with
   | Return response => Return (status response =? 204)
   | Throw e => Throw e
   end, exchanged st r).
Proof.
  cbv zeta. unfold deleteComment.
  rewrite bind_get_this. cbv beta. rewrite bind_request.
  destruct (answer st _); reflexivity.
Qed.

(** X17: [deleteComment] sends one DELETE for the comment and resolves to
    [true] exactly when the response has status 204, to [false] for a
    response of any other status; a failure of the transport is never
    turned into [false], it is rethrown. *)
Theorem deleteComment_status (accessToken issueId commentId : JsVal) (st : St) :
  exists r,
    new_exchanges st (snd (deleteComment accessToken issueId commentId st))
      = [(r, answer st r)] /\
    method r = DELETE /\
    url r = apiURL (this st)
              ("repos/" ++ owner (this st) ++ "/" ++ repo (this st) ++ "/issues/"
               ++ ToString issueId ++ "/comments/" ++ ToString commentId) /\
    (forall b, fst (deleteComment accessToken issueId commentId st) = Return b <->
       exists response, answer st r = Return response /\
                        b = (status response =? 204)) /\
    (forall e, answer st r = Throw e ->
       fst (deleteComment accessToken issueId commentId st) = Throw e).
Proof.
  pose proof (deleteComment_run accessToken issueId commentId st) as Hrun.
  cbv zeta in Hrun.
  match type of Hrun with context [exchanged st ?r0] => exists r0 end.
  rewrite Hrun. clear Hrun. cbn [fst snd].
  split; [apply log_exchanged|]. split; [reflexivity|]. split; [reflexivity|].
  destruct (answer st _) as [response|e]; split.
  - intros b. split.
    + intros [= <-]. now exists response.
    + intros (response' & [= <-] & ->). reflexivity.
  - discriminate.
  - intros b. split; [discriminate|]. intros (response & Habs & _). discriminate.
  - now intros e' [= <-].
Qed.

Lemma getMarkdownContent_run (accessToken contentRaw : JsVal) (st : St) :
  getMarkdownContent accessToken contentRaw st =
  (match answer st (render_request (this st) accessToken contentRaw) with
   | Return response => Return (data response)
   | Throw e => Throw e
   end, exchanged st (render_request (this st) accessToken contentRaw)).
Proof.
  unfold getMarkdownContent. rewrite bind_get_this. cbv beta.
  fold (render_request (this st) accessToken contentRaw).
  rewrite bind_request. destruct (answer st _); reflexivity.
Qed.

(** X22: [getMarkdownContent] posts the text once, in mode gfm, with
    owner/repo as context, and resolves to the response body as it is,
    whatever its type: it never throws an error of its own, and rejects
    only with the error of the transport. *)
Theorem getMarkdownContent_verbatim (accessToken contentRaw : JsVal) (st : St) :
  let r := render_request (this st) accessToken contentRaw in
  new_exchanges st (snd (getMarkdownContent accessToken contentRaw st))
    = [(r, answer st r)] /\
  text_of r = contentRaw /\
  prop (body r) "Mode" = JStr "gfm" /\
  prop (body r) "Context" = JStr (owner (this st) ++ "/" ++ repo (this st)) /\
  (forall response, answer st r = Return response ->
     fst (getMarkdownContent accessToken contentRaw st) = Return (data response)) /\
  (forall e, fst (getMarkdownContent accessToken contentRaw st) = Throw e ->
     answer st r = Throw e).
Proof.
  intros r. rewrite getMarkdownContent_run. fold r. cbn [fst snd].
  split; [apply log_exchanged|]. repeat split.
  - now intros response ->.
  - intros e. destruct (answer st r); [discriminate|]. now intros [= <-].
Qed.

Lemma getCommentMeta_run (accessToken comment : JsVal) (st : St) :
  getCommentMeta accessToken comment st =
  if nullish comment then (Throw TypeError, st)
  else
    let r := render_request (this st) accessToken (prop comment "body") in
    (match answer st r with
     | Return response => set comment "body_html" (data response)
     | Throw e => Throw e
     end, exchanged st r).
Proof.
  unfold getCommentMeta. rewrite bind_lift. unfold get.
  destruct (nullish comment); [reflexivity|].
  unfold bind. rewrite getMarkdownContent_run.
  destruct (answer st _); reflexivity.
Qed.

(** What a successful fan-out has done: one rendering per comment, in
    order, each answered. *)
Lemma all_getCommentMeta_returns (accessToken : JsVal) (l : list JsVal) :
  forall (st st' : St) (l' : list JsVal),
    all (map (getCommentMeta accessToken) l) st = (Return l', st') ->
    this st' = this st /\
    List.length l' = List.length l /\
    exists new,
      log (world st') = (log (world st) ++ new)%list /\
      map fst new =
        map (fun c => render_request (this st) accessToken (prop c "body")) l /\
      Forall (fun x => exists response, snd x = Return response) new.
Proof.
  induction l as [|c l IH]; intros st st' l'; cbn [map all].
  - intros [= <- <-]. split; [reflexivity|]. split; [reflexivity|].
    exists []. rewrite app_nil_r. now repeat split.
  - rewrite getCommentMeta_run.
    destruct (nullish c).
    { destruct (all _ st) as [rs st2]. intros Habs. discriminate Habs. }
    cbv beta iota zeta.
    set (r := render_request (this st) accessToken (prop c "body")).
    destruct (all (map (getCommentMeta accessToken) l) (exchanged st r))
      as [rs st2] eqn:Hrest.
    destruct (answer st r) as [response|e] eqn:Hanswer;
      [|intros Habs; discriminate Habs].
    destruct (set c "body_html" (data response)) as [c'|e];
      [|intros Habs; discriminate Habs].
    destruct rs as [rest|e]; [|intros Habs; discriminate Habs].
    intros [= <- <-].
    destruct (IH _ _ _ Hrest) as (Hthis & Hlen & new & Hlog & Hreqs & Hanswers).
    split; [exact Hthis|]. split; [cbn; now rewrite Hlen|].
    exists ((r, Return response) :: new). split; [|split].
    + rewrite Hlog. cbn [exchanged world log]. rewrite Hanswer.
      now rewrite <- app_assoc.
    + cbn [map fst]. f_equal. exact Hreqs.
    + constructor; [now exists response|exact Hanswers].
Qed.

Lemma map_throwing_length {A B} (f : A -> Completion B) (l : list A) (bs : list B) :
  map_throwing f l = Return bs -> List.length bs = List.length l.
Proof.
  revert bs. induction l as [|a l IH]; intros bs; cbn [map_throwing].
  - now intros [= <-].
  - destruct (f a) as [b|e]; cbn [cbind]; [|discriminate].
    destruct (map_throwing f l) as [rest|e]; cbn [cbind]; [|discriminate].
    intros [= <-]. cbn. now rewrite (IH rest).
Qed.

Lemma getComments_run (accessToken issueId : JsVal) (query : option Query.t) (st : St) :
  let r :=
    {| method := GET;
       url := apiURL (this st)
                ("repos/" ++ owner (this st) ++ "/" ++ repo (this st) ++ "/issues/"
                 ++ ToString issueId ++ "/comments");
       body := JUndefined;
       config := {| headers := authorization accessToken;
                    params := Some [("timestamp", JNum (Date_now (env (world st))))] |} |} in
  getComments accessToken issueId query st =
  match answer st r with
  | Throw e => (Throw e, exchanged st r)
  | Return response =>
      match iterate (data response) with
      | Throw e => (Throw e, exchanged st r)
      | Return comments =>
          match all (map (getCommentMeta accessToken) comments) (exchanged st r) with
          | (Throw e, st2) => (Throw e, st2)
          | (Return enriched, st2) =>
              match data response with
              | JArr _ =>
                  (let! items := map_throwing
                                   (fun item => normalizeComment item (baseURL (this st)))
                                   enriched in
                   Return {| Comments.count := 0;
                             Comments.page := 0;
                             Comments.perPage := 0;
                             Comments.data := items |}, st2)
              | _ => (Throw TypeError, st2)
              end
          end
      end
  end.
Proof.
  cbv zeta. unfold getComments. cbv zeta.
  rewrite bind_get_this. cbv beta. rewrite bind_now. cbv beta.
  rewrite bind_request.
  destruct (answer st _) as [response|e]; [|reflexivity].
  rewrite bind_lift.
  destruct (iterate (data response)) as [comments|e]; [|reflexivity].
  unfold bind at 1.
  destruct (all _ _) as [[enriched|e] st2]; [|reflexivity].
  destruct (data response); try reflexivity.
  rewrite bind_lift. destruct (map_throwing _ _); reflexivity.
Qed.

(** X18: the edges of [getComments].  With no comment (an empty array) it
    resolves to an empty page after its single GET; on a body it cannot
    iterate ([null], [undefined], a boolean, a number, an object) it throws
    a [TypeError] after that GET, without any rendering request; when the
    GET fails it rethrows the error. *)
Theorem getComments_without_comments
  (accessToken issueId : JsVal) (query : option Query.t) (st : St) :
  exists r,
    method r = GET /\
    url r = apiURL (this st)
              ("repos/" ++ owner (this st) ++ "/" ++ repo (this st) ++ "/issues/"
               ++ ToString issueId ++ "/comments") /\
    (forall response, answer st r = Return response ->
       data response = JArr [] ->
       getComments accessToken issueId query st =
         (Return {| Comments.count := 0; Comments.page := 0;
                    Comments.perPage := 0; Comments.data := [] |},
          exchanged st r)) /\
    (forall response, answer st r = Return response ->
       match data response with
       | JArr _ | JStr _ => False
       | _ => True
       end ->
       getComments accessToken issueId query st = (Throw TypeError, exchanged st r)) /\
    (forall e, answer st r = Throw e ->
       getComments accessToken issueId query st = (Throw e, exchanged st r)).
Proof.
  pose proof (getComments_run accessToken issueId query st) as Hrun.
  cbv zeta in Hrun.
  match type of Hrun with context [exchanged st ?r0] => exists r0 end.
  rewrite Hrun. clear Hrun.
  split; [reflexivity|]. split; [reflexivity|]. split; [|split].
  - intros response -> ->. reflexivity.
  - intros response -> Hbody.
    destruct (data response); try contradiction; reflexivity.
  - now intros e ->.
Qed.

(** X19: when [getComments] resolves, the body of its GET was an array; it
    then asked for one rendering per comment, in the order of the array and
    each with the comment's body as text, every request was answered, and
    the page returned has as many comments as the array. *)
Theorem getComments_renders_each_comment
  (accessToken issueId : JsVal) (query : option Query.t) (st : St)
  (comments : Comments.t) :
  fst (getComments accessToken issueId query st) = Return comments ->
  exists r response elements renderings,
    answer st r = Return response /\
    data response = JArr elements /\
    new_exchanges st (snd (getComments accessToken issueId query st))
      = (r, Return response) :: renderings /\
    map fst renderings =
      map (fun c => render_request (this st) accessToken (prop c "body")) elements /\
    Forall (fun x => exists answered, snd x = Return answered) renderings /\
    List.length (Comments.data comments) = List.length elements.
Proof.
  pose proof (getComments_run accessToken issueId query st) as Hrun.
  cbv zeta in Hrun. rewrite Hrun. clear Hrun.
  match goal with
  | |- context [answer st ?r0] => set (r := r0)
  end.
  destruct (answer st r) as [response|e] eqn:Hanswer; [|discriminate].
  destruct (iterate (data response)) as [raw|e] eqn:Hiter; [|discriminate].
  destruct (all (map (getCommentMeta accessToken) raw) (exchanged st r))
    as [[enriched|e] st2] eqn:Hall; [|discriminate].
  destruct (data response) as [| | | | |elements|] eqn:Hdata; try discriminate.
  cbn [iterate] in Hiter. injection Hiter as <-.
  destruct (map_throwing _ enriched) as [items|e] eqn:Hitems; [|discriminate].
  cbn [cbind fst snd]. intros [= <-]. cbn [Comments.data].
  destruct (all_getCommentMeta_returns _ _ _ _ _ Hall)
    as (Hthis & Hlen & new & Hlog & Hreqs & Hanswers).
  exists r, response, elements, new.
  split; [exact Hanswer|]. split; [exact Hdata|]. split; [|split; [|split]].
  - apply new_exchanges_app. rewrite Hlog. cbn [exchanged world log].
    rewrite Hanswer. now rewrite <- app_assoc.
  - exact Hreqs.
  - exact Hanswers.
  - rewrite (map_throwing_length _ _ _ Hitems). exact Hlen.
Qed.

Lemma postComment_run (accessToken issueId : JsVal) (content : string) (st : St) :
  let r :=
    {| method := POST;
       url := apiURL (this st)
                ("repos/" ++ owner (this st) ++ "/" ++ repo (this st) ++ "/issues/"
                 ++ ToString issueId ++ "/comments");
       body := JObj [("body", JStr content)];
       config := {| headers := Some (bearer accessToken); params := None |} |} in
  postComment accessToken issueId content st =
  match answer st r with
  | Throw e => (Throw e, exchanged st r)
  | Return response =>
      if nullish (data response) then (Throw TypeError, exchanged st r)
      else
        let r' := render_request (this st) accessToken (prop (data response) "body") in
        (match answer (exchanged st r) r' with
         | Return rendered =>
             let! created := set (data response) "body_html" (data rendered) in
             normalizeComment created (baseURL (this st))
         | Throw e => Throw e
         end, exchanged (exchanged st r) r')
  end.
Proof.
  cbv zeta. unfold postComment.
  rewrite bind_get_this. cbv beta. rewrite bind_request.
  destruct (answer st _) as [response|e]; [|reflexivity].
  rewrite bind_lift. unfold get.
  destruct (nullish (data response)); [reflexivity|].
  unfold bind at 1. rewrite getMarkdownContent_run.
  cbn [exchanged this].
  destruct (answer _ _) as [rendered|e]; [|reflexivity].
  rewrite bind_lift. unfold lift.
  destruct (set (data response) "body_html" (data rendered)); reflexivity.
Qed.

(** X20: [postComment] posts the comment, then asks once for the rendering
    of the body the forge returned for it.  When the first request fails,
    its error is rethrown and no rendering is asked; when [postComment]
    resolves, exactly these two exchanges were made. *)
Theorem postComment_exchanges
  (accessToken issueId : JsVal) (content : string) (st : St) :
  exists r,
    method r = POST /\
    body r = JObj [("body", JStr content)] /\
    (forall e, answer st r = Throw e ->
       postComment accessToken issueId content st = (Throw e, exchanged st r)) /\
    (forall comment,
       fst (postComment accessToken issueId content st) = Return comment ->
       exists response rendered,
         answer st r = Return response /\
         new_exchanges st (snd (postComment accessToken issueId content st))
           = [(r, Return response);
              (render_request (this st) accessToken (prop (data response) "body"),
               Return rendered)]).
Proof.
  pose proof (postComment_run accessToken issueId content st) as Hrun.
  cbv zeta in Hrun.
  match type of Hrun with context [exchanged st ?r0] => exists r0 end.
  rewrite Hrun. clear Hrun.
  split; [reflexivity|]. split; [reflexivity|]. split.
  - now intros e ->.
  - intros comment.
    match goal with
    | |- context [answer st ?r0] => set (r := r0)
    end.
    destruct (answer st r) as [response|e] eqn:Hanswer; [|discriminate].
    destruct (nullish (data response)); [discriminate|]. cbv zeta.
    set (r' := render_request (this st) accessToken (prop (data response) "body")).
    destruct (answer (exchanged st r) r') as [rendered|e] eqn:Hrendered;
      [|discriminate].
    cbn [fst snd]. intros _. exists response, rendered.
    split; [reflexivity|].
    apply new_exchanges_app. cbn [exchanged world log].
    rewrite Hanswer, Hrendered. now rewrite <- app_assoc.
Qed.

(** *** The constructor *)

(** X9: the constructor refuses options without a clientSecret or without
    a proxy, with an [Error]; given both, it builds an instance, on the
    base URL given or else on "https://try.gitea.io", whose axios instance
    works on that base URL joined with "api/v1". *)
Theorem constructor_requires_secret_and_proxy (options : Options) :
  ((exists instance, constructor options = Return instance) <->
   options_clientSecret options <> None /\ options_proxy options <> None)
  /\ (forall instance, constructor options = Return instance ->
      baseURL instance =
        match options_baseURL options with
        | Some url => url
        | None => "https://try.gitea.io"
        end /\
      axios_baseURL (http instance) = concatURL (baseURL instance) (JStr "api/v1") /\
      options_clientSecret options = Some (clientSecret instance) /\
      options_proxy options = Some (proxy instance) /\
      state instance = options_state options /\
      labels instance = options_labels options)
  /\ ((options_clientSecret options = None \/ options_proxy options = None) ->
      constructor options
      = Throw (Error "clientSecret and proxy is required for Gitea V1")).
Proof.
  unfold constructor.
  destruct (options_clientSecret options) as [secret|];
    destruct (options_proxy options) as [p|]; cbv zeta.
  - split; [|split].
    + split; [intros _; split; discriminate|]. intros _. eexists. reflexivity.
    + intros instance [= <-]. cbn. now repeat split.
    + intros [Habs|Habs]; discriminate.
  - split; [|split]; [split| |]; try discriminate.
    + intros [? ?]. discriminate.
    + intros [_ Habs]. now destruct Habs.
    + reflexivity.
  - split; [|split]; [split| |]; try discriminate.
    + intros [? ?]. discriminate.
    + intros [Habs _]. now destruct Habs.
    + reflexivity.
  - split; [|split]; [split| |]; try discriminate.
    + intros [? ?]. discriminate.
    + intros [Habs _]. now destruct Habs.
    + reflexivity.
Qed.

(** *** Errors of the transport *)

Lemma rethrows_silent {A} (m : M A) :
  (forall st, log (world (snd (m st))) = log (world st)) -> rethrows m.
Proof.
  intros Hsilent st. exists []. rewrite app_nil_r. split; [apply Hsilent|now left].
Qed.

Lemma rethrows_request (r : Request) : rethrows (request r).
Proof.
  intros st. unfold request.
  destruct (send (http (this st)) r (env (world st))) as [[response|e] env'];
    eexists; (split; [reflexivity|]); cbn; [now left|right].
  now exists e.
Qed.

Lemma rethrows_bind {A B} (m : M A) (f : A -> M B) :
  rethrows m -> (forall a, rethrows (f a)) -> rethrows (bind m f).
Proof.
  intros Hm Hf st. destruct (Hm st) as (new1 & Hlog1 & Hraised1).
  unfold bind. destruct (m st) as [[a|e] st1]; cbn [fst snd] in *.
  - destruct Hraised1 as [Hnone|(e & _ & Habs)]; [|discriminate].
    destruct (Hf a st1) as (new2 & Hlog2 & Hraised2).
    exists (new1 ++ new2)%list. split.
    + now rewrite Hlog2, Hlog1, app_assoc.
    + now rewrite raised_app, Hnone.
  - exists new1. split; [exact Hlog1|].
    destruct Hraised1 as [Hnone|(e0 & Hone & [= <-])]; [now left|right].
    now exists e.
Qed.

Lemma rethrows_fmap {A B} (f : A -> B) (m : M A) :
  rethrows m -> rethrows (fmap f m).
Proof.
  intros Hm. apply rethrows_bind; [exact Hm|]. intros a.
  apply rethrows_silent. intros st. reflexivity.
Qed.

Ltac rethrowing :=
  repeat first
    [ solve [apply rethrows_silent; intros ?; reflexivity]
    | apply rethrows_request
    | apply rethrows_bind; [|intros ?]
    | match goal with
      | |- rethrows (if ?b then _ else _) => destruct b
      end ].

Lemma rethrows_getMarkdownContent (accessToken contentRaw : JsVal) :
  rethrows (getMarkdownContent accessToken contentRaw).
Proof. unfold getMarkdownContent. rethrowing. Qed.

Lemma rethrows_getAccessToken (code : JsVal) : rethrows (getAccessToken code).
Proof. unfold getAccessToken. rethrowing. Qed.

Lemma rethrows_handleAuth : rethrows handleAuth.
Proof.
  unfold handleAuth. cbv zeta.
  apply rethrows_bind; [rethrowing|]. intros this0.
  apply rethrows_bind; [rethrowing|]. intros l.
  destruct (truthy _); [|rethrowing].
  destruct (negb _); [rethrowing|].
  apply rethrows_bind; [rethrowing|]. intros _.
  apply rethrows_bind; [apply rethrows_getAccessToken|]. intros token.
  rethrowing.
Qed.

Lemma rethrows_postComment (accessToken issueId : JsVal) (content : string) :
  rethrows (postComment accessToken issueId content).
Proof.
  unfold postComment.
  apply rethrows_bind; [rethrowing|]. intros this0.
  apply rethrows_bind; [rethrowing|]. intros response.
  apply rethrows_bind; [rethrowing|]. intros contentRaw.
  apply rethrows_bind; [apply rethrows_getMarkdownContent|]. intros html.
  rethrowing.
Qed.

Lemma set_refused (v : JsVal) (name : string) (x : JsVal) (e : JsError) :
  set v name x = Throw e -> takes_property v = false /\ e = TypeError.
Proof. destruct v; cbn; intros Hset; try discriminate; now injection Hset as <-. Qed.

(** The fan-out of [getComments]: its rejection is an error the transport
    raised for one of the renderings, unless a comment that is not an
    object made its own task throw first. *)
Lemma all_getCommentMeta_rethrows (accessToken : JsVal) (l : list JsVal) (st : St) :
  exists new,
    log (world (snd (all (map (getCommentMeta accessToken) l) st)))
    = (log (world st) ++ new)%list /\
    (raised new = []
     \/ (exists e, In e (raised new) /\
                   fst (all (map (getCommentMeta accessToken) l) st) = Throw e)
     \/ (fst (all (map (getCommentMeta accessToken) l) st) = Throw TypeError /\
         exists comment, In comment l /\ takes_property comment = false)).
Proof.
  revert st. induction l as [|c l IH]; intros st; cbn [map all].
  - exists []. rewrite app_nil_r. split; [reflexivity|now left].
  - rewrite getCommentMeta_run.
    destruct (nullish c) eqn:Hnull.
    + destruct (IH st) as (new & Hlog & _).
      destruct (all (map (getCommentMeta accessToken) l) st) as [rs st2].
      cbn [fst snd] in *. exists new. split; [exact Hlog|].
      right. right. split; [reflexivity|]. exists c. split; [now left|].
      destruct c; try discriminate; reflexivity.
    + cbv beta iota zeta.
      set (r := render_request (this st) accessToken (prop c "body")).
      destruct (IH (exchanged st r)) as (new & Hlog & Hraised).
      destruct (all (map (getCommentMeta accessToken) l) (exchanged st r))
        as [rs st2].
      cbn [fst snd] in *.
      exists ((r, answer st r) :: new). split.
      { rewrite Hlog. cbn [exchanged world log]. now rewrite <- app_assoc. }
      destruct (answer st r) as [response|e].
      * change (raised ((r, Return response) :: new)) with (raised new).
        destruct (set c "body_html" (data response)) as [c'|e] eqn:Hset.
        -- destruct Hraised as [Hnone|[(e & Hin & ->)|(-> & comment & Hin & Hbad)]].
           ++ now left.
           ++ right. left. now exists e.
           ++ right. right. split; [reflexivity|]. exists comment.
              split; [now right|exact Hbad].
        -- destruct (set_refused _ _ _ _ Hset) as [Hbad ->].
           right. right. split; [reflexivity|]. exists c. split; [now left|exact Hbad].
      * right. left. exists e. split; [now left|reflexivity].
Qed.

(** C3, as the code has it: an operation only adds exchanges to the log,
    and when the transport raised an error during the call it rejects with
    that error, unchanged: with the only error raised, for every operation
    but [getComments], whose renderings run side by side and which rejects
    with the error of one of them.  Two cases apart:
    - [getIssue] called with an issue id resolves to [null] when its GET
      fails with a response of status 404;
    - [getComments] rejects with a [TypeError] when the comments it was
      sent include one that is not an object, whatever the renderings of
      the others do. *)
Theorem errors_pass_through (c : Call) (st : St) :
  exists new,
    log (world (snd (invoke c st))) = (log (world st) ++ new)%list /\
    (raised new = []
     \/ (exists e,
           In e (raised new) /\ fst (invoke c st) = Throw e /\
           ((forall accessToken issueId query,
               c <> Call_getComments accessToken issueId query) ->
            raised new = [e]))
     \/ (by_id c = true /\ fst (invoke c st) = Return (VIssue None) /\
         exists response,
           raised new = [AxiosError (Some response)] /\ status response = 404)
     \/ (exists accessToken issueId query r response comments comment,
           c = Call_getComments accessToken issueId query /\
           fst (invoke c st) = Throw TypeError /\
           head new = Some (r, Return response) /\
           iterate (data response) = Return comments /\
           In comment comments /\ takes_property comment = false)).
Proof.
  assert (Hstrict : rethrows (invoke c) ->
            exists new,
              log (world (snd (invoke c st))) = (log (world st) ++ new)%list /\
              (raised new = []
               \/ (exists e,
                     In e (raised new) /\ fst (invoke c st) = Throw e /\
                     ((forall accessToken issueId query,
                         c <> Call_getComments accessToken issueId query) ->
                      raised new = [e]))
               \/ (by_id c = true /\ fst (invoke c st) = Return (VIssue None) /\
                   exists response,
                     raised new = [AxiosError (Some response)] /\
                     status response = 404)
               \/ (exists accessToken issueId query r response comments comment,
                     c = Call_getComments accessToken issueId query /\
                     fst (invoke c st) = Throw TypeError /\
                     head new = Some (r, Return response) /\
                     iterate (data response) = Return comments /\
                     In comment comments /\ takes_property comment = false))).
  { intros Hc. destruct (Hc st) as (new & Hlog & [Hnone|(e & Hone & Hthrow)]);
      exists new; (split; [exact Hlog|]); [now left|].
    right. left. exists e. rewrite Hone. split; [now left|]. now split. }
  destruct c; cbn [invoke] in *.
  - apply Hstrict, rethrows_fmap. unfold platform. rethrowing.
  - apply Hstrict, rethrows_fmap, rethrows_handleAuth.
  - apply Hstrict, rethrows_fmap, rethrows_getAccessToken.
  - apply Hstrict, rethrows_fmap. unfold getUser. rethrowing.
  - destruct (truthy issueId) eqn:Hid.
    + clear Hstrict. rewrite fmap_run.
      rewrite (getIssue_by_id_run accessToken issueId issueTitle st Hid).
      cbn [fst snd this world log by_id]. rewrite Hid.
      eexists. split; [reflexivity|].
      destruct (send _ _ _) as [[response|e] env'];
        cbn [fst raised flat_map snd app]; [now left|].
      destruct e as [|[response|]|message]; cbn [response_of].
      * right. left. eexists. split; [now left|]. now split.
      * destruct (status response =? 404) eqn:Hstatus.
        -- right. right. left. split; [reflexivity|]. split; [reflexivity|].
           exists response. split; [reflexivity|]. now apply Z.eqb_eq.
        -- right. left. eexists. split; [now left|]. now split.
      * right. left. eexists. split; [now left|]. now split.
      * right. left. eexists. split; [now left|]. now split.
    + apply Hstrict, rethrows_fmap. unfold getIssue. cbv zeta.
      apply rethrows_bind; [rethrowing|]. intros this0. rewrite Hid. rethrowing.
  - apply Hstrict, rethrows_fmap, rethrows_fmap. unfold postIssue. rethrowing.
  - clear Hstrict. rewrite fmap_run.
    pose proof (getComments_run accessToken issueId query st) as Hrun.
    cbv zeta in Hrun. rewrite Hrun. clear Hrun.
    match goal with
    | |- context [answer st ?r0] => set (r := r0)
    end.
    destruct (answer st r) as [response|e] eqn:Hanswer.
    2:{ exists [(r, Throw e)]. cbn [fst snd exchanged world log].
        rewrite Hanswer. split; [reflexivity|].
        right. left. exists e. cbn. split; [now left|]. now split. }
    destruct (iterate (data response)) as [comments|e] eqn:Hiter.
    2:{ exists [(r, Return response)]. cbn [fst snd exchanged world log].
        rewrite Hanswer. split; [reflexivity|]. now left. }
    destruct (all_getCommentMeta_rethrows accessToken comments (exchanged st r))
      as (new & Hlog & Hraised).
    destruct (all (map (getCommentMeta accessToken) comments) (exchanged st r))
      as [[enriched|e] st2]; cbn [fst snd] in Hlog, Hraised.
    + exists ((r, Return response) :: new). split.
      { destruct (data response); cbn [snd]; rewrite Hlog;
          cbn [exchanged world log]; rewrite Hanswer; now rewrite <- app_assoc. }
      left. change (raised ((r, Return response) :: new)) with (raised new).
      destruct Hraised as [Hnone|[(e & _ & Habs)|(Habs & _)]];
        [exact Hnone|discriminate|discriminate].
    + exists ((r, Return response) :: new). cbn [fst snd]. split.
      { rewrite Hlog. cbn [exchanged world log]. rewrite Hanswer.
        now rewrite <- app_assoc. }
      change (raised ((r, Return response) :: new)) with (raised new).
      destruct Hraised as [Hnone|[(e' & Hin & [= ->])|([= ->] & comment & Hin & Hbad)]].
      * now left.
      * right. left. exists e'. split; [exact Hin|]. split; [reflexivity|].
        intros Hother. now destruct (Hother accessToken issueId query).
      * right. right. right.
        exists accessToken, issueId, query, r, response, comments, comment.
        now repeat split.
  - apply Hstrict, rethrows_fmap, rethrows_postComment.
  - apply Hstrict, rethrows_fmap. unfold putComment. rethrowing.
  - apply Hstrict, rethrows_fmap. unfold deleteComment. rethrowing.
  - apply Hstrict, rethrows_fmap, rethrows_getMarkdownContent.
Qed.

End AdapterEdges.

(** ** The operations run on the concrete server *)

Module Runs.
Import Demo.
#[local] Existing Instance utils.
#[local] Existing Instance host.

(** C2, evaluated where it fails: issue 7 has one comment whose markdown
    body is "**hi**".  [getComments] does ask the server to render it (the
    second exchange of the log, answered with the HTML), and the comment it
    returns has the raw markdown as [content], not the HTML rendered from
    its [contentRaw]. *)
Theorem getComments_content_not_rendered :
  let run := getComments (JStr "t") (JNum 7) None start in
  exists comment,
    fst run =
      Return {| Comments.count := 0; Comments.page := 0; Comments.perPage := 0;
                Comments.data := [comment] |} /\
    Comment.contentRaw comment = JStr "**hi**" /\
    fst (getMarkdownContent (JStr "t") (Comment.contentRaw comment) start)
      = Return rendered /\
    map (fun x => (url (fst x), option_map data (match snd x with
                                                 | Return r => Some r
                                                 | Throw _ => None
                                                 end)))
        (log (world (snd run)))
      = [("repos/o/r/issues/7/comments", Some (JArr [comment1]));
         ("markdown", Some rendered)] /\
    Comment.content comment = JStr "**hi**" /\
    Comment.content comment <> rendered.
Proof.
  cbv zeta. eexists. split; [vm_compute; reflexivity|].
  cbn [Comment.contentRaw Comment.content].
  repeat split; try (vm_compute; reflexivity).
  discriminate.
Qed.

(** C3 as the claim has it fails on [getIssue]: asked for issue 8, the
    transport raises an error with a 404 response, and the operation
    returns normally, with [null]. *)
Lemma getIssue_turns_404_into_null :
  let c := Call_getIssue (JStr "t") (JNum 8) JUndefined in
  raised (log (world (snd (invoke c start))))
    = [AxiosError (Some {| status := 404; data := JNull |})] /\
  fst (invoke c start) = Return (VIssue None) /\
  ~ (exists e, fst (invoke c start) = Throw e).
Proof.
  cbv zeta. split; [vm_compute; reflexivity|]. split; [vm_compute; reflexivity|].
  intros (e & He). vm_compute in He. discriminate.
Qed.

Lemma handleAuth_exchange_witness :
  fst (handleAuth (page_at "?code=c0de&state=s3cret")) = Return (JStr "t0ken") /\
  location (world (snd (handleAuth (page_at "?code=c0de&state=s3cret"))))
    = {| href := "https://blog.example/post#top";
         search := EmptyString;
         hash := "#top" |} /\
  map (fun x => body (fst x))
    (new_exchanges (page_at "?code=c0de&state=s3cret")
       (snd (handleAuth (page_at "?code=c0de&state=s3cret"))))
    = [JStr ("client_id=id&client_secret=secret&code=c0de"
             ++ "&grant_type=authorization_code"
             ++ "&redirect_uri=https://blog.example/post#top")] /\
  handleAuth (page_at "?code=c0de&state=other")
    = (Return JNull, page_at "?code=c0de&state=other") /\
  handleAuth start = (Return JNull, start).
Proof.
  destruct (handleAuth_exchange (page_at "?code=c0de&state=s3cret"))
    as (_ & _ & _ & Hexchange).
  destruct (Hexchange eq_refl eq_refl)
    as (_ & _ & _ & Hlocation & _ & Hlog & Htoken & _ & _).
  destruct (handleAuth_exchange (page_at "?code=c0de&state=other"))
    as (_ & _ & Hother & _).
  destruct (handleAuth_exchange start) as (Hnone & _).
  split.
  { exact (Htoken {| status := 200; data := JObj [("access_token", JStr "t0ken")] |}
             eq_refl eq_refl). }
  split; [exact Hlocation|].
  split; [rewrite Hlog; reflexivity|].
  split; [exact (Hother eq_refl eq_refl)|exact (Hnone eq_refl)].
Defined.

(** C6 as the claim has it fails: a raw user that is [null], and one whose
    login is missing, make [normalizeUser] throw, and [normalizeComment]
    with it. *)
Lemma normalizeUser_refuses :
  normalizeUser JNull "https://try.gitea.io" = Throw TypeError /\
  normalizeUser (JObj [("avatar_url", JStr "https://try.gitea.io/avatars/1")])
    "https://try.gitea.io" = Throw TypeError /\
  normalizeComment (JObj [("id", JNum 11); ("body", JStr "**hi**")])
    "https://try.gitea.io" = Throw TypeError /\
  ~ (exists user,
       normalizeUser (JObj [("avatar_url", JStr "https://try.gitea.io/avatars/1")])
         "https://try.gitea.io" = Return user).
Proof.
  split; [reflexivity|]. split; [reflexivity|]. split; [reflexivity|].
  intros (user & Huser). discriminate Huser.
Qed.

Lemma normalize_shapes_witness :
  nullish alice = false /\ is_string (prop alice "login") = true /\
  nullish issue7 = false /\ nullish comment1 = false /\
  normalizeUser alice "https://try.gitea.io" =
    Return {| User.username := JStr "alice";
              User.avatar := JStr "https://try.gitea.io/avatars/1";
              User.homepage := "https://try.gitea.io/alice" |} /\
  normalizeIssue issue7 "https://try.gitea.io" "o" "r" =
    Return {| Issue.id := JNum 7;
              Issue.title := JStr "Post";
              Issue.content := JStr "text";
              Issue.link := "https://try.gitea.io/o/r/issues/7" |} /\
  option_map Comment.content
    (match normalizeComment comment1 "https://try.gitea.io" with
     | Return c => Some c
     | Throw _ => None
     end) = Some (JStr "**hi**").
Proof.
  destruct (normalize_shapes alice issue7 comment1 "https://try.gitea.io" "o" "r"
              eq_refl eq_refl eq_refl eq_refl) as (Huser & Hissue & Hcomment).
  rewrite Huser, Hissue, Hcomment.
  repeat split.
Defined.


(** C9 as the claim has it fails on a [null] body: the GET succeeds, the
    size of the body is not greater than 0, and [getIssue] throws instead of
    resolving to [null]. *)
Lemma getIssue_by_title_null_body :
  let run := getIssue (H := Canned.host JNull) (JStr "t") JUndefined (JStr "Post")
               (Canned.start JNull) in
  map snd (log (world (snd run))) = [Return {| status := 200; data := JNull |}] /\
  fst run = Throw TypeError /\
  fst run <> Return None.
Proof.
  cbv zeta. split; [reflexivity|]. split; [reflexivity|]. discriminate.
Qed.

Lemma getIssue_by_title_witness :
  truthy JUndefined = false /\
  fst (getIssue (JStr "t") JUndefined (JStr "Post") start) = Return None /\
  fst (getIssue (H := Canned.host Canned.found) (JStr "t") JUndefined (JStr "Post")
         (Canned.start Canned.found))
  = Return (Some {| Issue.id := JNum 7;
                    Issue.title := JStr "Post";
                    Issue.content := JStr "text";
                    Issue.link := "https://try.gitea.io/o/r/issues/7" |}).
Proof.
  split; [reflexivity|].
  destruct (getIssue_by_title (JStr "t") JUndefined (JStr "Post") start eq_refl)
    as (_ & _ & _ & _ & _ & _ & _ & Harray).
  destruct (getIssue_by_title (H := Canned.host Canned.found)
              (JStr "t") JUndefined (JStr "Post") (Canned.start Canned.found) eq_refl)
    as (_ & _ & _ & _ & _ & Hfirst & _).
  split.
  - apply (Harray {| status := 200; data := JArr [issue7] |} [issue7]); reflexivity.
  - exact (Hfirst {| status := 200; data := Canned.found |} issue7 []
             eq_refl eq_refl eq_refl).
Defined.

End Runs.

(** ** Further runs *)

Module MoreRuns.
Import Demo.
#[local] Existing Instance utils.

Lemma normalizeIssue_without_number_witness :
  lookup "number" [("title", JStr "Post")] = JUndefined /\
  normalizeIssue (JObj [("title", JStr "Post")]) "https://try.gitea.io" "o" "r" =
    Return {| Issue.id := JUndefined;
              Issue.title := JStr "Post";
              Issue.content := JUndefined;
              Issue.link := "https://try.gitea.io/o/r/issues/undefined" |}.
Proof.
  split; [reflexivity|].
  exact (normalizeIssue_without_number [("title", JStr "Post")]
           "https://try.gitea.io" "o" "r" eq_refl).
Defined.

Lemma handleAuth_token_request_witness :
  location (world (snd (handleAuth (H := host) (page_at "?code=c0de&state=s3cret"))))
  = {| href := "https://blog.example/post#top"; search := EmptyString; hash := "#top" |}.
Proof.
  exact (proj1 (handleAuth_token_request (H := host)
                  (page_at "?code=c0de&state=s3cret") eq_refl eq_refl)).
Defined.

Lemma getIssue_falsy_ids_witness :
  getIssue (H := host) (JStr "t") (JNum 0) (JStr "Post") start
  = getIssue (H := host) (JStr "t") JUndefined (JStr "Post") start.
Proof.
  exact (proj1 (getIssue_falsy_ids (H := host) (JStr "t") (JNum 0) JUndefined
                  (JStr "Post") start eq_refl eq_refl)).
Defined.

Lemma getIssue_by_title_without_values_witness :
  fst (getIssue (H := Paged.host) JNull JUndefined (JStr "Post") Paged.start)
  = Throw TypeError.
Proof.
  refine (proj1 (getIssue_by_title_without_values (H := Paged.host)
                   JNull JUndefined (JStr "Post") Paged.start
                   {| status := 200; data := Paged.page |}
                   eq_refl eq_refl eq_refl _)).
  right. exists JUndefined. split; reflexivity.
Defined.

Lemma getComments_renders_each_comment_witness :
  exists r response elements renderings,
    answer (H := host) start r = Return response /\
    data response = JArr elements /\
    new_exchanges start (snd (getComments (H := host) (JStr "t") (JNum 7) None start))
      = (r, Return response) :: renderings /\
    map fst renderings =
      map (fun c => render_request (this start) (JStr "t") (prop c "body")) elements /\
    Forall (fun x => exists answered, snd x = Return answered) renderings /\
    List.length
      (Comments.data
         {| Comments.count := 0; Comments.page := 0; Comments.perPage := 0;
            Comments.data :=
              [{| Comment.id := JNum 11;
                  Comment.content := JStr "**hi**";
                  Comment.contentRaw := JStr "**hi**";
                  Comment.author :=
                    {| User.username := JStr "alice";
                       User.avatar := JStr "https://try.gitea.io/avatars/1";
                       User.homepage := "https://try.gitea.io/alice" |};
                  Comment.createdAt := JStr "2019-05-01T10:00:00Z";
                  Comment.updatedAt := JStr "2019-05-01T10:00:00Z";
                  Comment.reactions := JUndefined |}] |})
    = List.length elements.
Proof.
  exact (getComments_renders_each_comment (H := host) (JStr "t") (JNum 7) None
           start _ eq_refl).
Defined.

Lemma operations_exchange_once_witness :
  exists r,
    new_exchanges start
      (snd (invoke (H := host) (Call_deleteComment (JStr "t") (JNum 7) (JNum 11)) start))
    = [(r, answer (H := host) start r)] /\
    forall e, answer (H := host) start r = Throw e ->
      fst (invoke (H := host) (Call_deleteComment (JStr "t") (JNum 7) (JNum 11)) start)
      = Throw e \/
      (by_id (Call_deleteComment (JStr "t") (JNum 7) (JNum 11)) = true /\
       fst (invoke (H := host) (Call_deleteComment (JStr "t") (JNum 7) (JNum 11)) start)
       = Return (VIssue None) /\
       exists response, e = AxiosError (Some response) /\ status response = 404).
Proof.
  exact (operations_exchange_once (H := host)
           (Call_deleteComment (JStr "t") (JNum 7) (JNum 11)) start eq_refl).
Defined.

End MoreRuns.
